(** * dynamic-rest: the viewset layer ([dynamic_rest/viewsets.py])

    A shallow embedding of the request-feature parser and of the bulk
    mutation coordinator of [DynamicModelViewSet], with the properties the
    specification states about them.

    Conventions of the embedding:
    - a Python [str] is a [string]; [str.lower] acts on the ASCII letters;
    - a Python exception is a constructor of [exn]; a call that may raise
      returns a [result];
    - request payloads and response bodies are [json] values whose objects
      are association lists in insertion order, as Python dicts are;
    - the data store, the serializers and the parent class are external
      collaborators: they are the Variables of the sections below. *)

From stdpp Require Import gmap strings list fin_maps.
From Stdlib Require Import Ascii String ZArith Lia.

Set Warnings "-register-all".
Local Open Scope string_scope.

(** ** Exceptions and results *)

(** The exceptions the viewset code raises or lets through. *)
Inductive exn :=
  | ParseError (detail : string)        (* rest_framework.exceptions.ParseError *)
  | ValidationError (detail : string)   (* rest_framework.exceptions.ValidationError *)
  | TypeError (msg : string)            (* builtin TypeError *)
  | AssertionError (msg : string)       (* builtin AssertionError *)
  | IntegrityError (msg : string)       (* django.db.IntegrityError *)
  | ObjectDoesNotExist (msg : string)   (* django.core.exceptions.ObjectDoesNotExist *)
  | OtherError (msg : string).          (* any other exception of a collaborator *)

(** [str(e)] *)
Definition exn_str (e : exn) : string :=
  match e with
  | ParseError m | ValidationError m | TypeError m | AssertionError m
  | IntegrityError m | ObjectDoesNotExist m | OtherError m => m
  end.

Inductive result (A : Type) :=
  | Ok (a : A)
  | Raise (e : exn).
Arguments Ok {A} a.
Arguments Raise {A} e.

Definition bind {A B} (r : result A) (k : A -> result B) : result B :=
  match r with
  | Ok a => k a
  | Raise e => Raise e
  end.

Notation "'do' x <- r ; k" := (bind r (fun x => k))
  (at level 10, x name, r at level 100, k at level 200).

Definition is_raise {A} (r : result A) : bool :=
  match r with Ok _ => false | Raise _ => true end.

(** ** Python string operations *)

(** [s] between double quotes, as the f-strings of the messages put it. *)
Definition quoted (s : string) : string :=
  String (ascii_of_nat 34) (s ++ String (ascii_of_nat 34) EmptyString).

Module Py.

Definition lower_ascii (c : ascii) : ascii :=
  let n := nat_of_ascii c in
  if (65 <=? n)%nat && (n <=? 90)%nat then ascii_of_nat (n + 32) else c.

(** [s.lower()] *)
Fixpoint lower (s : string) : string :=
  match s with
  | EmptyString => EmptyString
  | String c s' => String (lower_ascii c) (lower s')
  end.

(** [s.startswith(p)] *)
Fixpoint startswith (p s : string) : bool :=
  match p, s with
  | EmptyString, _ => true
  | String a p', String b s' => if Ascii.eqb a b then startswith p' s' else false
  | String _ _, EmptyString => false
  end.

Fixpoint drop (n : nat) (s : string) : string :=
  match n, s with
  | O, _ => s
  | S n', String _ s' => drop n' s'
  | S _, EmptyString => EmptyString
  end.

Fixpoint take (n : nat) (s : string) : string :=
  match n, s with
  | O, _ => EmptyString
  | S n', String c s' => String c (take n' s')
  | S _, EmptyString => EmptyString
  end.

(** [s.endswith(p)] *)
Definition endswith (p s : string) : bool :=
  (String.length p <=? String.length s)%nat
  && String.eqb (drop (String.length s - String.length p) s) p.

(** [s[i:-j]] for [j > 0]: from index [i] up to [len(s) - j], empty when
    the bounds cross. *)
Definition slice (i j : nat) (s : string) : string :=
  take (String.length s - j - i) (drop i s).

(** [s.split(c)] for a one-character separator: never the empty list. *)
Fixpoint split (c : ascii) (s : string) : list string :=
  match s with
  | EmptyString => [EmptyString]
  | String a s' =>
      if Ascii.eqb a c then EmptyString :: split c s'
      else match split c s' with
           | [] => [String a EmptyString]
           | h :: t => String a h :: t
           end
  end.

(** [c in s] for a character [c] *)
Fixpoint contains (c : ascii) (s : string) : bool :=
  match s with
  | EmptyString => false
  | String a s' => Ascii.eqb a c || contains c s'
  end.

(** [p in s] for strings *)
Fixpoint substring_of (p s : string) : bool :=
  startswith p s
  || match s with
     | EmptyString => false
     | String _ s' => substring_of p s'
     end.

(** truth value of a [str]: [bool(s)] *)
Definition nonempty (s : string) : bool :=
  match s with EmptyString => false | String _ _ => true end.

End Py.

(** ** The request: query parameters and features *)

(** [request.query_params]: a [QueryDict], keys in order, each with the
    list of its values. *)
Definition QueryParams := list (string * list string).

Definition DEBUG := "debug".
Definition SIDELOADING := "sideloading".
Definition PATCH_ALL := "patch-all".
Definition INCLUDE := "include[]".
Definition EXCLUDE := "exclude[]".
Definition FILTER := "filter{}".
Definition SORT := "sort[]".

Fixpoint qp_find (name : string) (qp : QueryParams) : option (list string) :=
  match qp with
  | [] => None
  | (k, vs) :: qp' => if String.eqb k name then Some vs else qp_find name qp'
  end.

(** [query_params.getlist(name)]: the values, [[]] for a missing key. *)
Definition qp_getlist (name : string) (qp : QueryParams) : list string :=
  default [] (qp_find name qp).

(** [query_params.get(name)]: the last value, [None] for a missing key or
    an empty list of values. *)
Definition qp_get (name : string) (qp : QueryParams) : option string :=
  match qp_find name qp with
  | None => None
  | Some vs => last vs
  end.

Definition is_feature (features : list string) (name : string) : bool :=
  bool_decide (name ∈ features).

(** [get_request_feature] on a single-type feature (no brackets, no braces
    in its name). *)
Definition get_request_feature_single
    (features : list string) (qp : QueryParams) (name : string) : option string :=
  if is_feature features name then qp_get name qp else None.

(** [get_request_feature] on an array-type feature ([name[]]). *)
Definition get_request_feature_array
    (features : list string) (qp : QueryParams) (name : string)
    : option (list string) :=
  if is_feature features name then Some (qp_getlist name qp) else None.

(** ** patch-all mode *)

(** What [get_request_patch_all] returns besides [None]: the string
    ["query"] or the boolean [True]. *)
Inductive patch_mode :=
  | ModeQuery   (* "query" *)
  | ModeLoop.   (* True *)

Section PatchAllMode.

(** [dynamic_rest.utils.is_truthy], defined outside this module. *)
Variable is_truthy : string -> bool.

(** The body of [get_request_patch_all] after the feature lookup. *)
Definition parse_patch_all (patch_all : option string) : result (option patch_mode) :=
  match patch_all with
  | None => Ok None
  | Some v =>
      if negb (Py.nonempty v) then Ok None
      else
        let v := Py.lower v in
        if String.eqb v "query" then Ok (Some ModeQuery)
        else if is_truthy v then Ok (Some ModeLoop)
        else Raise (ParseError (quoted v ++ " is not valid for " ++ PATCH_ALL))
  end.

Definition get_request_patch_all
    (features : list string) (qp : QueryParams) : result (option patch_mode) :=
  parse_patch_all (get_request_feature_single features qp PATCH_ALL).

End PatchAllMode.

(** ** Request fields: the include[] and exclude[] features *)

(** The nested dict [get_request_fields] builds: a key maps to [True] or
    [False], or to a nested dict. *)
Inductive rfield :=
  | RLeaf (include : bool)
  | RNode (fields : gmap string rfield).

(** The inner loop of [get_request_fields] over the segments of one value,
    [current_fields] being [cur].  The dict is updated in place in the
    source; here the updated dict is returned.  Reading or writing a key
    of a [bool] raises [TypeError]. *)
Fixpoint add_segments (field : string) (include : bool)
    (segs : list string) (cur : rfield) : result rfield :=
  match segs with
  | [] => Ok cur
  | segment :: rest =>
      let last := match rest with [] => true | _ => false end in
      if Py.nonempty segment then
        match cur with
        | RLeaf _ =>
            Raise (TypeError (if last
                              then "'bool' object does not support item assignment"
                              else "argument of type 'bool' is not iterable"))
        | RNode m =>
            if last then Ok (RNode (<[segment := RLeaf include]> m))
            else
              let child := default (RNode ∅) (m !! segment) in
              do child' <- add_segments field include rest child;
              Ok (RNode (<[segment := child']> m))
        end
      else if negb last then
        Raise (ParseError (quoted field ++ " is not a valid field."))
      else add_segments field include rest cur
  end.

(** One value of include[] or exclude[]. *)
Definition add_field (include : bool) (field : string) (request_fields : rfield)
    : result rfield :=
  add_segments field include (Py.split "." field) request_fields.

(** [for field in fields] *)
Fixpoint add_fields (include : bool) (fields : list string) (request_fields : rfield)
    : result rfield :=
  match fields with
  | [] => Ok request_fields
  | field :: fields' =>
      do request_fields' <- add_field include field request_fields;
      add_fields include fields' request_fields'
  end.

Definition add_feature (include : bool) (fields : option (list string))
    (request_fields : rfield) : result rfield :=
  match fields with
  | None => Ok request_fields
  | Some fields => add_fields include fields request_fields
  end.

(** [get_request_fields].  The source keeps the map of a request that
    parsed in [self._request_fields]; a request that does not parse raises
    at every call, so the parse is a function of the parameters. *)
Definition get_request_fields (features : list string) (qp : QueryParams)
    : result rfield :=
  let include_fields := get_request_feature_array features qp INCLUDE in
  let exclude_fields := get_request_feature_array features qp EXCLUDE in
  do request_fields <- add_feature true include_fields (RNode ∅);
  add_feature false exclude_fields request_fields.

(** [request_fields[p1][p2]...] *)
Fixpoint rf_lookup (path : list string) (rf : rfield) : option rfield :=
  match path with
  | [] => Some rf
  | segment :: rest =>
      match rf with
      | RLeaf _ => None
      | RNode m =>
          match m !! segment with
          | Some child => rf_lookup rest child
          | None => None
          end
      end
  end.

(** No proper prefix of the path is already mapped to a boolean: the walk
    along [segs] only meets dicts.  It holds of the empty dict. *)
Fixpoint rf_clear (segs : list string) (cur : rfield) : bool :=
  match segs with
  | [] => true
  | segment :: rest =>
      if Py.nonempty segment then
        match cur with
        | RLeaf _ => false
        | RNode m =>
            match rest with
            | [] => true
            | _ => rf_clear rest (default (RNode ∅) (m !! segment))
            end
        end
      else true
  end.

(** An empty segment before the last one. *)
Fixpoint has_inner_empty (segs : list string) : bool :=
  match segs with
  | [] => false
  | [_] => false
  | segment :: rest => negb (Py.nonempty segment) || has_inner_empty rest
  end.

(** ** Python dicts with string keys, in insertion order *)

Section Dict.
Context {V : Type}.

(** [d.get(k)] *)
Fixpoint dict_get (k : string) (d : list (string * V)) : option V :=
  match d with
  | [] => None
  | (k', v) :: d' => if String.eqb k' k then Some v else dict_get k d'
  end.

(** [d[k] = v]: an existing key keeps its place, a new one goes last. *)
Fixpoint dict_set (k : string) (v : V) (d : list (string * V)) : list (string * V) :=
  match d with
  | [] => [(k, v)]
  | (k', v') :: d' =>
      if String.eqb k' k then (k, v) :: d' else (k', v') :: dict_set k v d'
  end.

(** [k in d] *)
Definition dict_mem (k : string) (d : list (string * V)) : bool :=
  match dict_get k d with Some _ => true | None => false end.

End Dict.

(** ** JSON values: payloads and response bodies *)

Inductive json :=
  | JNull
  | JBool (b : bool)
  | JNum (n : Z)
  | JStr (s : string)
  | JList (items : list json)
  | JObj (members : list (string * json)).

(** Truth value of a parsed payload, as [if bulk_payload:] tests it. *)
Definition json_truthy (j : json) : bool :=
  match j with
  | JNull => false
  | JBool b => b
  | JNum n => negb (n =? 0)%Z
  | JStr s => Py.nonempty s
  | JList items => match items with [] => false | _ => true end
  | JObj members => match members with [] => false | _ => true end
  end.

(** ** Object-type features: filter{} *)

(** What [_extract_object_params] returns: the decoded JSON of the raw
    form, [None], or the map of subkeys. *)
Inductive extracted :=
  | ExRaw (decoded : json)
  | ExNone
  | ExMap (params_map : list (string * list string)).

(** The values of an [.in] key: a bracketed comma list is spread out. *)
Fixpoint expand_in (value : list string) : list string :=
  match value with
  | [] => []
  | v :: value' =>
      (if Py.startswith "[" v && Py.endswith "]" v && Py.contains "," v
       then Py.split "," (Py.slice 1 1 v)
       else [v]) ++ expand_in value'
  end.

Section ExtractObjectParams.

(** [json.loads], which raises on a string that is not JSON. *)
Variable json_loads : string -> result json.

(** The loop of [_extract_object_params] over [params], with the map
    built so far. *)
Fixpoint extract_loop (name : string) (raw : bool)
    (params : QueryParams) (params_map : list (string * list string))
    : result extracted :=
  let prefix := Py.take (String.length name - 1) name in
  let offset := String.length prefix in
  match params with
  | [] => Ok (if raw then ExNone else ExMap params_map)
  | (param_name, value) :: params' =>
      if String.eqb param_name name then
        match raw, value with
        | true, v0 :: _ => do decoded <- json_loads v0; Ok (ExRaw decoded)
        | _, _ => extract_loop name raw params' params_map
        end
      else if negb (Py.startswith prefix param_name) then
        extract_loop name raw params' params_map
      else
        do param_name' <-
          (if Py.endswith "}" param_name then Ok (Py.slice offset 1 param_name)
           else if Py.endswith "}[]" param_name then Ok (Py.slice offset 3 param_name)
           else Raise (ParseError (quoted param_name ++ " is not a well-formed filter key.")));
        let value' := if Py.endswith ".in" param_name' then expand_in value else value in
        extract_loop name raw params' (dict_set param_name' value' params_map)
  end.

Definition _extract_object_params (qp : QueryParams) (name : string) (raw : bool)
    : result extracted :=
  extract_loop name raw qp [].

(** [get_request_feature] on an object-type feature ([name{}]): the
    empty dict when the feature is not enabled. *)
Definition get_request_feature_object
    (features : list string) (qp : QueryParams) (name : string) (raw : bool)
    : result extracted :=
  if is_feature features name then _extract_object_params qp name raw
  else Ok (ExMap []).

End ExtractObjectParams.

(** A key of the feature that is not closed: it starts with the prefix,
    is not the feature name, and ends with neither brace form. *)
Definition malformed_key (name : string) (param_name : string) : bool :=
  negb (String.eqb param_name name)
  && Py.startswith (Py.take (String.length name - 1) name) param_name
  && negb (Py.endswith "}" param_name)
  && negb (Py.endswith "}[]" param_name).

(** The raw form of the feature is present with a value: the loop returns
    there. *)
Definition raw_hit (name : string) (kv : string * list string) : bool :=
  String.eqb (fst kv) name && match snd kv with [] => false | _ => true end.

(** ** Responses *)

(** [Response(data, status=...)]; [data] is [None] for a bare status. *)
Record response := Response { data : option json; status : nat }.

Definition HTTP_200_OK := 200%nat.
Definition HTTP_201_CREATED := 201%nat.
Definition HTTP_204_NO_CONTENT := 204%nat.
Definition HTTP_400_BAD_REQUEST := 400%nat.
Definition HTTP_405_METHOD_NOT_ALLOWED := 405%nat.

(** ** The collaborators of the viewset *)

(** A serializer field as [get_all_fields] returns it: [field.source],
    [field.read_only], and the [immutable] flag that the field declarations
    set apart from [read_only] ([DynamicRelationField(..., immutable=True)],
    [Meta.immutable_fields]). *)
Record field := Field { source : option string; read_only : bool; immutable : bool }.

(** [field.source or name] *)
Definition source_or (f : field) (name : string) : string :=
  match source f with
  | Some s => if Py.nonempty s then s else name
  | None => name
  end.

(** The outcome of [serializer.is_valid(raise_exception=True)] on one
    entry: it passes, or raises a [ValidationError] whose [str] is given. *)
Inductive validation (S : Type) :=
  | Valid (serializer : S)
  | Invalid (detail : string).
Arguments Valid {S} serializer.
Arguments Invalid {S} detail.

(** The data store, the serializers and the parent [ModelViewSet], at
    their interface. *)
Class Collaborators := {
  db : Type;                 (* the state of the data store *)
  record : Type;             (* a model instance *)
  queryset : Type;           (* a lazy query *)
  serializer : Type;         (* a serializer bound to valid data *)
  (* the view *)
  plural_name : string;                         (* get_serializer_class().get_plural_name() *)
  lookup_url_kwarg : string;                    (* self.lookup_url_kwarg or self.lookup_field *)
  ENABLE_BULK_PARTIAL_CREATION : bool;
  ENABLE_BULK_UPDATE : bool;
  ENABLE_PATCH_ALL : bool;
  features : list string;                       (* self.features *)
  is_truthy : string -> bool;                   (* dynamic_rest.utils.is_truthy *)
  json_loads : string -> result json;           (* json.loads *)
  all_fields : gmap string field;               (* get_serializer().get_all_fields() *)
  related_fields : gmap string string;          (* get_serializer().fields: name to source *)
  filter_queryset : QueryParams -> result queryset;  (* filter_queryset(get_queryset()) *)
  (* the store *)
  qs_iter : db -> queryset -> list record;      (* for record in queryset *)
  qs_first : db -> queryset -> option record;   (* queryset.first() *)
  qs_update : db -> queryset -> list (string * json) -> result (db * nat);
                                                (* queryset.update( **data ) *)
  setattr : record -> string -> json -> record; (* setattr(record, k, v) *)
  save : db -> record -> result db;             (* record.save() *)
  data_str : list (string * json) -> string;    (* str(data) *)
  (* serializers *)
  validate : db -> json -> validation serializer;
  perform_create : db -> serializer -> result (db * record);
  to_representation : db -> record -> json;
  sideload : list json -> list (string * json); (* SideloadingProcessor(...).data *)
  validate_many : db -> queryset -> json -> bool -> validation serializer;
  perform_update : db -> serializer -> result (db * json);
  destroy_instances : db -> json -> result (list record);
  check_object_permissions : record -> result unit;
  perform_destroy : db -> record -> result db;
  getattr_related : db -> record -> string -> result record;  (* getattr(obj, field.source) *)
  related_data : db -> record -> json;          (* related_szr.data *)
  (* the parent class *)
  super_create : json -> db -> db * result response;
  super_update : json -> list string -> db -> db * result response;
  super_destroy : json -> list string -> db -> db * result response;
}.

(** ** Effects: the store, the calls made, and exceptions *)

Definition nl : string := String (ascii_of_nat 10) EmptyString.

Section ViewSet.

Context {C : Collaborators}.

(** The writes and validations a request makes, in order. *)
Inductive call :=
  | CallIsValid (entry : json) (outcome : validation serializer)
                                          (* serializer.is_valid(...) and what it gave *)
  | CallPerformCreate (s : serializer)    (* self.perform_create(serializer) *)
  | CallSave (r : record)                 (* record.save() *)
  | CallUpdate (qs : queryset) (values : list (string * json))
                                          (* queryset.update( **data ) *)
  | CallPerformUpdate (s : serializer)    (* self.perform_update(serializer) *)
  | CallPerformDestroy (r : record)       (* self.perform_destroy(instance) *)
  | CallSuper (method : string).          (* super().create / update / destroy *)

Record world := World { w_db : db; w_calls : list call }.

Definition M (A : Type) : Type := world -> world * result A.

Definition ret {A} (a : A) : M A := fun w => (w, Ok a).
Definition raise {A} (e : exn) : M A := fun w => (w, Raise e).
Definition lift {A} (r : result A) : M A := fun w => (w, r).

Definition mbind {A B} (m : M A) (k : A -> M B) : M B :=
  fun w =>
    match m w with
    | (w', Ok a) => k a w'
    | (w', Raise e) => (w', Raise e)
    end.

Definition log (c : call) : M unit :=
  fun w => (World (w_db w) (w_calls w ++ [c]), Ok tt).

Definition get_db : M db := fun w => (w, Ok (w_db w)).
Definition put_db (d : db) : M unit := fun w => (World d (w_calls w), Ok tt).

(** [with transaction.atomic(): body]: an exception leaving the block
    rolls the store back to its state at entry; the calls were made all
    the same. *)
Definition atomic {A} (body : M A) : M A :=
  fun w =>
    match body w with
    | (w', Ok a) => (w', Ok a)
    | (w', Raise e) => (World (w_db w) (w_calls w'), Raise e)
    end.

(** [try: body except IntegrityError as e: raise h(e)] *)
Definition except_integrity {A} (body : M A) (h : string -> exn) : M A :=
  fun w =>
    match body w with
    | (w', Raise (IntegrityError m)) => (w', Raise (h m))
    | other => other
    end.

End ViewSet.

Notation "'run' x <- m ; k" := (mbind m (fun x => k))
  (at level 10, x name, m at level 100, k at level 200).
Notation "'run_' m ; k" := (mbind m (fun _ => k))
  (at level 10, m at level 100, k at level 200).

Section BulkMutation.

Context {C : Collaborators}.

(** [self.get_serializer()] reads the request fields, which raises on a
    malformed include[] or exclude[] value. *)
Definition get_serializer_check (qp : QueryParams) : result unit :=
  do _ <- get_request_fields features qp; Ok tt.

(** *** _get_bulk_payload *)

(** [None] is [Ok None]; the payload is returned as it is. A payload that
    is neither a list nor a dict fails in [plural_name in data] or in
    [data[plural_name]]. *)
Definition _get_bulk_payload (data : json) : result (option json) :=
  match data with
  | JList _ => Ok (Some data)
  | JObj members =>
      if dict_mem plural_name members && (List.length members =? 1)%nat
      then Ok (dict_get plural_name members)
      else Ok None
  | JStr s =>
      if Py.substring_of plural_name s && (String.length s =? 1)%nat
      then Raise (TypeError "string indices must be integers")
      else Ok None
  | JNull | JBool _ | JNum _ => Raise (TypeError "argument is not iterable")
  end.

(** [if bulk_payload:] *)
Definition payload_truthy (p : option json) : bool :=
  match p with
  | Some j => json_truthy j
  | None => false
  end.

(** *** _validate_patch_all *)

Fixpoint validate_items (items : list (string * json))
    (validated : list (string * json)) : result (list (string * json)) :=
  match items with
  | [] => Ok validated
  | (name, value) :: items' =>
      match all_fields !! name with
      | None => Raise (ValidationError ("Unknown field: " ++ quoted name))
      | Some f =>
          let src := source_or f name in
          if String.eqb src "*" || read_only f
          then Raise (ValidationError ("Cannot update field: " ++ quoted name))
          else validate_items items' (dict_set src value validated)
      end
  end.

Definition _validate_patch_all (qp : QueryParams) (data : json)
    : result (list (string * json)) :=
  match data with
  | JObj items =>
      do _ <- get_serializer_check qp;
      validate_items items []
  | _ => Raise (ValidationError "Patch-all data must be in object form")
  end.

(** *** _patch_all_query, _patch_all_loop, _patch_all *)

Definition _patch_all_query (qs : queryset) (values : list (string * json)) : M nat :=
  run_ log (CallUpdate qs values);
  run d <- get_db;
  match qs_update d qs values with
  | Ok (d', n) => run_ put_db d'; ret n
  | Raise e =>
      raise (ValidationError
               ("Failed to bulk-update records:" ++ nl ++ exn_str e ++ nl
                ++ "Data: " ++ data_str values))
  end.

(** [for k, v in data.items(): setattr(record, k, v)] *)
Definition set_all (values : list (string * json)) (r : record) : record :=
  fold_left (fun r kv => setattr r (fst kv) (snd kv)) values r.

(** [for record in queryset: ...; record.save(); updated += 1] *)
Fixpoint save_loop (values : list (string * json)) (records : list record)
    (updated : nat) : M nat :=
  match records with
  | [] => ret updated
  | r :: records' =>
      let r' := set_all values r in
      run_ log (CallSave r');
      run d <- get_db;
      run d' <- lift (save d r');
      run_ put_db d';
      save_loop values records' (S updated)
  end.

Definition _patch_all_loop (qs : queryset) (values : list (string * json)) : M nat :=
  except_integrity
    (atomic (run d <- get_db; save_loop values (qs_iter d qs) 0))
    (fun m => ValidationError
                ("Failed to update records:" ++ nl ++ m ++ nl
                 ++ "Data: " ++ data_str values)).

Definition updated_body (updated : nat) : json :=
  JObj [("meta", JObj [("updated", JNum (Z.of_nat updated))])].

Definition _patch_all (qp : QueryParams) (data : json) (query : bool) : M response :=
  run qs <- lift (filter_queryset qp);
  run values <- lift (_validate_patch_all qp data);
  run updated <- (if query then _patch_all_query qs values
                  else _patch_all_loop qs values);
  ret (Response (Some (updated_body updated)) HTTP_200_OK).

End BulkMutation.

Section CreateUpdateDestroy.

Context {C : Collaborators}.

(** [for entry in data] over a payload. *)
Fixpoint chars (s : string) : list json :=
  match s with
  | EmptyString => []
  | String c s' => JStr (String c EmptyString) :: chars s'
  end.

Definition json_iter (data : json) : result (list json) :=
  match data with
  | JList items => Ok items
  | JObj members => Ok (map (fun kv => JStr (fst kv)) members)
  | JStr s => Ok (chars s)
  | JNull | JBool _ | JNum _ => Raise (TypeError "object is not iterable")
  end.

(** *** _create_many *)

(** [{"detail": str(e), "source": entry}] *)
Definition error_entry (detail : string) (entry : json) : json :=
  JObj [("detail", JStr detail); ("source", entry)].

(** [self.perform_create(serializer)] then
    [serializer.to_representation(serializer.instance)] *)
Definition create_one (s : serializer) : M json :=
  run_ log (CallPerformCreate s);
  run d <- get_db;
  run created <- lift (perform_create d s);
  run_ put_db (fst created);
  ret (to_representation (fst created) (snd created)).

(** The lists [items], [errors] and [serializers] of [_create_many]. *)
Record create_state := CreateState {
  cs_items : list json;
  cs_errors : list json;
  cs_serializers : list serializer;
}.

(** The first loop of [_create_many]. *)
Fixpoint validate_loop (qp : QueryParams) (entries : list json)
    (st : create_state) : M create_state :=
  match entries with
  | [] => ret st
  | entry :: entries' =>
      run_ lift (get_serializer_check qp);
      run d <- get_db;
      let outcome := validate d entry in
      run_ log (CallIsValid entry outcome);
      match outcome with
      | Invalid detail =>
          validate_loop qp entries'
            (CreateState (cs_items st)
                         (cs_errors st ++ [error_entry detail entry])
                         (cs_serializers st))
      | Valid s =>
          if ENABLE_BULK_PARTIAL_CREATION then
            run item <- create_one s;
            validate_loop qp entries'
              (CreateState (cs_items st ++ [item]) (cs_errors st) (cs_serializers st))
          else
            validate_loop qp entries'
              (CreateState (cs_items st) (cs_errors st) (cs_serializers st ++ [s]))
      end
  end.

(** The second loop: [for serializer in serializers]. *)
Fixpoint create_loop (serializers : list serializer) (items : list json)
    : M (list json) :=
  match serializers with
  | [] => ret items
  | s :: serializers' =>
      run item <- create_one s;
      create_loop serializers' (items ++ [item])
  end.

Definition is_nil {A} (l : list A) : bool :=
  match l with [] => true | _ => false end.

Definition _create_many (qp : QueryParams) (data : json) : M response :=
  run entries <- lift (json_iter data);
  run st <- validate_loop qp entries (CreateState [] [] []);
  run items <-
    (if negb ENABLE_BULK_PARTIAL_CREATION && is_nil (cs_errors st)
     then create_loop (cs_serializers st) (cs_items st)
     else ret (cs_items st));
  run_ lift (get_serializer_check qp);
  let result := sideload items in
  let result := if is_nil (cs_errors st) then result
                else dict_set "errors" (JList (cs_errors st)) result in
  let code := if is_nil (cs_errors st) then HTTP_201_CREATED
              else HTTP_400_BAD_REQUEST in
  ret (Response (Some (JObj result)) code).

(** A call of the parent class. *)
Definition call_super (method : string) (f : db -> db * result response)
    : M response :=
  run_ log (CallSuper method);
  fun w => let (d', r) := f (w_db w) in (World d' (w_calls w), r).

(** *** create *)

Definition create (qp : QueryParams) (data : json) : M response :=
  run bulk_payload <- lift (_get_bulk_payload data);
  match bulk_payload with
  | Some payload =>
      if json_truthy payload then _create_many qp payload
      else call_super "create" (super_create data)
  | None => call_super "create" (super_create data)
  end.

(** *** _bulk_update and update *)

Definition _bulk_update (qp : QueryParams) (data : json) (partial : bool)
    : M response :=
  run qs <- lift (filter_queryset qp);
  run_ lift (get_serializer_check qp);
  run d <- get_db;
  let outcome := validate_many d qs data partial in
  run_ log (CallIsValid data outcome);
  match outcome with
  | Invalid detail => raise (ValidationError detail)
  | Valid s =>
      run_ log (CallPerformUpdate s);
      run updated <- lift (perform_update d s);
      run_ put_db (fst updated);
      ret (Response (Some (snd updated)) HTTP_200_OK)
  end.

(** [try: super().update(...) except AssertionError as e: ...] *)
Definition singular_update (data : json) (kwargs : list string) : M response :=
  fun w =>
    match call_super "update" (super_update data kwargs) w with
    | (w', Raise (AssertionError err)) =>
        if Py.substring_of "Fix your URL conf" err
        then (w', Raise (ValidationError err))
        else (w', Raise (AssertionError err))
    | other => other
    end.

Definition update (qp : QueryParams) (data : json) (kwargs : list string)
    : M response :=
  if ENABLE_BULK_UPDATE then
    run patch_all <- lift (get_request_patch_all is_truthy features qp);
    match ENABLE_PATCH_ALL, patch_all with
    | true, Some mode =>
        _patch_all qp data (match mode with ModeQuery => true | ModeLoop => false end)
    | _, _ =>
        let partial := bool_decide ("partial" ∈ kwargs) in
        run bulk_payload <- lift (_get_bulk_payload data);
        match bulk_payload with
        | Some payload =>
            if json_truthy payload then _bulk_update qp payload partial
            else singular_update data kwargs
        | None => singular_update data kwargs
        end
    end
  else singular_update data kwargs.

(** *** _destroy_many and destroy *)

Fixpoint destroy_loop (instances : list record) : M unit :=
  match instances with
  | [] => ret tt
  | instance :: instances' =>
      run_ lift (check_object_permissions instance);
      run_ log (CallPerformDestroy instance);
      run d <- get_db;
      run d' <- lift (perform_destroy d instance);
      run_ put_db d';
      destroy_loop instances'
  end.

Definition _destroy_many (data : json) : M response :=
  run d <- get_db;
  run instances <- lift (destroy_instances d data);
  run_ destroy_loop instances;
  ret (Response None HTTP_204_NO_CONTENT).

Definition destroy (data : json) (kwargs : list string) : M response :=
  run bulk_payload <- lift (_get_bulk_payload data);
  let singular :=
    if negb (bool_decide (lookup_url_kwarg ∈ kwargs))
    then ret (Response None HTTP_405_METHOD_NOT_ALLOWED)
    else call_super "destroy" (super_destroy data kwargs) in
  match bulk_payload with
  | Some payload =>
      if json_truthy payload then _destroy_many payload else singular
  | None => singular
  end.

End CreateUpdateDestroy.

(** ** The relation endpoint: list_related *)

(** [del query_params[key]] *)
Definition qp_del (key : string) (qp : QueryParams) : QueryParams :=
  filter (fun kv => negb (String.eqb (fst kv) key)) qp.

(** [query_params.appendlist(key, value)] *)
Fixpoint qp_appendlist (key value : string) (qp : QueryParams) : QueryParams :=
  match qp with
  | [] => [(key, [value])]
  | (k, vs) :: qp' =>
      if String.eqb k key then (k, (vs ++ [value])%list) :: qp'
      else (k, vs) :: qp_appendlist key value qp'
  end.

(** [QueryParams.add(key, values)] with a list of values *)
Definition qp_add (key : string) (values : list string) (qp : QueryParams)
    : QueryParams :=
  fold_left (fun qp v => qp_appendlist key v qp) values qp.

Section ListRelated.

Context {C : Collaborators}.

(** [_prefix_inex_params] *)
Definition _prefix_inex_params (feature prefix : string) (qp : QueryParams)
    : QueryParams :=
  match get_request_feature_array features qp feature with
  | None | Some [] => qp
  | Some values => qp_add feature (map (fun val => prefix ++ val) values)
                     (qp_del feature qp)
  end.

(** [if self.get_request_feature(self.FILTER):] *)
Definition extracted_truthy (e : extracted) : bool :=
  match e with
  | ExRaw j => json_truthy j
  | ExNone => false
  | ExMap m => negb (is_nil m)
  end.

(** The query parameters as [list_related] rewrites them. *)
Definition related_params (pk field_name : string) (qp : QueryParams)
    : QueryParams :=
  let field_prefix := field_name ++ "." in
  let qp := _prefix_inex_params INCLUDE field_prefix qp in
  let qp := _prefix_inex_params EXCLUDE field_prefix qp in
  let qp := qp_appendlist "filter{pk}" pk qp in
  qp_add INCLUDE [field_prefix] qp.

(** [list_related] up to the lookup of the field: the filter guard, the
    rewriting of the parameters, the serializer and its field.  It
    returns the parameters and [field.source]. *)
Definition related_field (qp : QueryParams) (pk field_name : string)
    : result (QueryParams * string) :=
  do filters <- get_request_feature_object json_loads features qp FILTER false;
  if extracted_truthy filters
  then Raise (ValidationError "Filtering is not enabled on relation endpoints.")
  else
    let qp' := related_params pk field_name qp in
    do _ <- get_serializer_check qp';
    match related_fields !! field_name with
    | None => Raise (ValidationError ("Unknown field: " ++ quoted field_name ++ "."))
    | Some src => Ok (qp', src)
    end.

(** [list_related] from the query for the root object on. *)
Definition related_response (qp' : QueryParams) (src : string) : M response :=
  run qs <- lift (filter_queryset qp');
  run d <- get_db;
  match qs_first d qs with
  | None => ret (Response (Some (JStr "Not found")) 404)
  | Some obj =>
      match getattr_related d obj src with
      | Raise (ObjectDoesNotExist _) =>
          ret (Response (Some (JObj [])) HTTP_200_OK)
      | Raise e => raise e
      | Ok instance =>
          ret (Response (Some (related_data d instance)) HTTP_200_OK)
      end
  end.

Definition list_related (qp : QueryParams) (pk field_name : string) : M response :=
  run found <- lift (related_field qp pk field_name);
  related_response (fst found) (snd found).

End ListRelated.

(** ** Specification-side readings of the object-feature keys *)

(** A loop that enters [val k x] under the key [k = key x] of every element
    [x] that has one. *)
Definition collect {A V} (key : A -> option string) (val : string -> A -> V)
    (d : list (string * V)) (x : A) : list (string * V) :=
  match key x with
  | Some k => dict_set k (val k x) d
  | None => d
  end.

(** The subkey of a parameter key of the feature: the key without the
    prefix and without its closing brace form; [None] for the keys the
    loop passes over. *)
Definition subkey (name param_name : string) : option string :=
  let prefix := Py.take (String.length name - 1) name in
  let offset := String.length prefix in
  if String.eqb param_name name then None
  else if negb (Py.startswith prefix param_name) then None
  else if Py.endswith "}" param_name then Some (Py.slice offset 1 param_name)
  else if Py.endswith "}[]" param_name then Some (Py.slice offset 3 param_name)
  else None.

(** The value stored under a subkey. *)
Definition subvalue (sub : string) (value : list string) : list string :=
  if Py.endswith ".in" sub then expand_in value else value.

(** One turn of the loop on a key that is not malformed. *)
Definition extract_step (name : string)
    : list (string * list string) -> string * list string
      -> list (string * list string) :=
  collect (fun kv => subkey name (fst kv)) (fun sub kv => subvalue sub (snd kv)).

Section PatchAllReadings.

Context {C : Collaborators}.






(** The message of the refusal. *)
Definition patch_error (name : string) : string :=
  match all_fields !! name with
  | None => "Unknown field: " ++ quoted name
  | Some _ => "Cannot update field: " ++ quoted name
  end.


(** The saves of the loop mode, one record after the other, on the store
    alone. *)
Fixpoint save_each (values : list (string * json)) (records : list record)
    (d : db) : result db :=
  match records with
  | [] => Ok d
  | r :: records' =>
      do d' <- save d (set_all values r);
      save_each values records' d'
  end.

(** The calls of the loop mode on these records. *)
Definition save_calls (values : list (string * json)) (records : list record)
    : list call :=
  map (fun r => CallSave (set_all values r)) records.

End PatchAllReadings.

(** ** A sample viewset, for the examples *)

(** A truthiness test for the examples: every string but ["0"] and
    ["false"] counts as true. *)
Definition sample_is_truthy (s : string) : bool :=
  negb (String.eqb s "0" || String.eqb s "false" || String.eqb s EmptyString).

Definition sample_features : list string :=
  [DEBUG; INCLUDE; EXCLUDE; FILTER; "page"; "per_page"; SORT; SIDELOADING; PATCH_ALL].

(** A JSON decoder for the examples: it knows the empty object. *)
Definition sample_json_loads (s : string) : result json :=
  if String.eqb s "{}" then Ok (JObj [])
  else Raise (OtherError "JSONDecodeError").

(** A store of dogs: rows are attribute dicts; a row whose [locked]
    attribute is true cannot be saved (a constraint of the store); an entry
    is valid when it has a non-blank name. *)
Definition row_id (row : list (string * json)) : option Z :=
  match dict_get "id" row with
  | Some (JNum n) => Some n
  | _ => None
  end.

Definition sample_save (d : list (list (string * json))) (r : list (string * json))
    : result (list (list (string * json))) :=
  match dict_get "locked" r with
  | Some (JBool true) => Raise (IntegrityError "CHECK constraint failed: locked")
  | _ => Ok (map (fun row => if bool_decide (row_id row = row_id r)
                             then r else row) d)
  end.

Definition sample_validate (entry : json) : validation json :=
  match entry with
  | JObj m =>
      match dict_get "name" m with
      | Some (JStr s) =>
          if Py.nonempty s then Valid entry
          else Invalid "name: This field may not be blank."
      | _ => Invalid "name: This field is required."
      end
  | _ => Invalid "Invalid data. Expected a dictionary."
  end.

Definition sample_getattr (obj : list (string * json)) (src : string)
    : result (list (string * json)) :=
  match dict_get src obj with
  | Some (JObj m) => Ok m
  | Some JNull => Raise (ObjectDoesNotExist "Dog has no owner.")
  | _ => Raise (OtherError "AttributeError")
  end.

Definition sample_fields : gmap string field :=
  {[ "fur" := Field (Some "fur") false false;
     "name" := Field None false false;
     "id" := Field (Some "id") true false;
     "everything" := Field (Some "*") false false;
     "nick" := Field (Some "profile.nick") false false;
     "parent" := Field None false true ]}.

Definition sample_view (partial_creation bulk_update patch_all : bool)
    : Collaborators := {|
  db := list (list (string * json));
  record := list (string * json);
  queryset := unit;
  serializer := json;
  plural_name := "dogs";
  lookup_url_kwarg := "pk";
  ENABLE_BULK_PARTIAL_CREATION := partial_creation;
  ENABLE_BULK_UPDATE := bulk_update;
  ENABLE_PATCH_ALL := patch_all;
  features := sample_features;
  is_truthy := sample_is_truthy;
  json_loads := sample_json_loads;
  all_fields := sample_fields;
  related_fields := {[ "owner" := "owner" ]};
  filter_queryset := fun _ => Ok tt;
  qs_iter := fun d _ => d;
  qs_first := fun d _ => head d;
  qs_update := fun d _ values =>
    Ok (map (fun row => fold_left (fun r kv => dict_set (fst kv) (snd kv) r) values row) d,
        List.length d);
  setattr := fun r k v => dict_set k v r;
  save := sample_save;
  data_str := fun values => String.concat ", " (map fst values);
  validate := fun _ entry => sample_validate entry;
  perform_create := fun d s =>
    match s with
    | JObj m => Ok ((d ++ [m])%list, m)
    | _ => Raise (OtherError "not an object")
    end;
  to_representation := fun _ r => JObj r;
  sideload := fun items => [("dogs", JList items)];
  validate_many := fun _ _ data _ => Valid data;
  perform_update := fun d s => Ok (d, s);
  destroy_instances := fun _ _ => Ok [];
  check_object_permissions := fun _ => Ok tt;
  perform_destroy := fun d _ => Ok d;
  getattr_related := fun _ obj src => sample_getattr obj src;
  related_data := fun _ r => JObj r;
  super_create := fun data d => (d, Ok (Response (Some data) HTTP_201_CREATED));
  super_update := fun data _ d => (d, Ok (Response (Some data) HTTP_200_OK));
  super_destroy := fun _ _ d => (d, Ok (Response None HTTP_204_NO_CONTENT));
|}.

(** ** Readings of the calls of a create-many request *)

Section CreateReadings.

Context {C : Collaborators}.

(** The error entries of the validations that failed, in order: for each
    one a dict of two members, the error detail under [detail] and the
    item that was validated under [source]. *)
Definition failed_entries (calls : list call) : list json :=
  omap (fun c => match c with
                 | CallIsValid entry (Invalid detail) =>
                     Some (JObj [("detail", JStr detail); ("source", entry)])
                 | _ => None
                 end) calls.

(** The validations that were made, each item with its outcome, in order. *)
Definition validations (calls : list call) : list (json * validation serializer) :=
  omap (fun c => match c with
                 | CallIsValid entry outcome => Some (entry, outcome)
                 | _ => None
                 end) calls.

(** The items validated one after the other, each on the store as the
    items before it left it: when [partial] is set an item that validates
    is created before the next one is validated, and a creation that
    raises ends the request. *)
Fixpoint outcomes (partial : bool) (entries : list json) (d : db)
    : list (json * validation serializer) :=
  match entries with
  | [] => []
  | entry :: entries' =>
      (entry, validate d entry) ::
      match validate d entry with
      | Invalid _ => outcomes partial entries' d
      | Valid s =>
          if partial then
            match perform_create d s with
            | Ok made => outcomes partial entries' (fst made)
            | Raise _ => []
            end
          else outcomes partial entries' d
      end
  end.

(** The items among [outs] that failed, each with the detail of its
    failure. *)
Definition failures (outs : list (json * validation serializer))
    : list (json * string) :=
  omap (fun eo => match snd eo with
                  | Invalid detail => Some (fst eo, detail)
                  | Valid _ => None
                  end) outs.

(** The entries that were validated, in order. *)
Definition validated_entries (calls : list call) : list json :=
  omap (fun c => match c with
                 | CallIsValid entry _ => Some entry
                 | _ => None
                 end) calls.

(** The serializers that passed validation, in order. *)
Definition valid_serializers (calls : list call) : list serializer :=
  omap (fun c => match c with
                 | CallIsValid _ (Valid s) => Some s
                 | _ => None
                 end) calls.

(** The serializers [perform_create] was called on, in order. *)
Definition created (calls : list call) : list serializer :=
  omap (fun c => match c with
                 | CallPerformCreate s => Some s
                 | _ => None
                 end) calls.

(** A validation, with the outcome it has on the store [d]. *)
Definition validation_on (d : db) (c : call) : Prop :=
  match c with
  | CallIsValid entry outcome => outcome = validate d entry
  | _ => False
  end.

(** The creations on the store alone: each instance is created and
    rendered, one after the other. *)
Fixpoint create_each (serializers : list serializer) (d : db)
    : result (db * list json) :=
  match serializers with
  | [] => Ok (d, [])
  | s :: serializers' =>
      do created <- perform_create d s;
      do rest <- create_each serializers' (fst created);
      Ok (fst rest, to_representation (fst created) (snd created) :: snd rest)
  end.

(** Calls in which every validation that passes is followed at once by
    the creation of its serializer, and nothing else is created. *)
Inductive immediate_creation : list call -> Prop :=
  | immediate_nil : immediate_creation []
  | immediate_invalid entry detail calls :
      immediate_creation calls ->
      immediate_creation (CallIsValid entry (Invalid detail) :: calls)
  | immediate_valid entry s calls :
      immediate_creation calls ->
      immediate_creation (CallIsValid entry (Valid s) :: CallPerformCreate s :: calls).

End CreateReadings.

Definition dog1 : list (string * json) := [("id", JNum 1); ("fur", JStr "brown")].
Definition dog2 : list (string * json) :=
  [("id", JNum 2); ("fur", JStr "brown"); ("locked", JBool true)].
Definition dog3 : list (string * json) := [("id", JNum 3); ("fur", JStr "brown")].
Definition gold : list (string * json) := [("fur", JStr "gold")].

Definition stray : list (string * json) := [("id", JNum 1); ("owner", JNull)].
Definition fido : json := JObj [("name", JStr "Fido")].
Definition blank : json := JObj [("name", JStr EmptyString)].

(** ** The feature dispatch of the parser *)

(** What [get_request_feature] returns: [None], the list of an array-type
    feature, the value of a single-type one, or what an object-type one
    extracts. *)
Inductive feature :=
  | FeatureNone
  | FeatureList (values : list string)
  | FeatureValue (value : string)
  | FeatureObject (object : extracted).

(** [get_request_feature(name, raw)] *)
Definition get_request_feature (json_loads : string -> result json)
    (features : list string) (qp : QueryParams) (name : string) (raw : bool)
    : result feature :=
  if Py.substring_of "[]" name then
    Ok (match get_request_feature_array features qp name with
        | Some values => FeatureList values
        | None => FeatureNone
        end)
  else if Py.substring_of "{}" name then
    do object <- get_request_feature_object json_loads features qp name raw;
    Ok (FeatureObject object)
  else
    Ok (match get_request_feature_single features qp name with
        | Some value => FeatureValue value
        | None => FeatureNone
        end).

(** [get_request_debug] and [get_request_sideloading]: the truth of the
    parameter, [None] when it is absent. *)
Definition get_request_flag (is_truthy : string -> bool)
    (features : list string) (qp : QueryParams) (name : string) : option bool :=
  match get_request_feature_single features qp name with
  | Some value => Some (is_truthy value)
  | None => None
  end.

(** [sep.join(items)] *)
Fixpoint join (sep : string) (items : list string) : string :=
  match items with
  | [] => EmptyString
  | [item] => item
  | item :: items' => item ++ sep ++ join sep items'
  end.

(** ** Readings of the calls of a destroy-many request *)

Section DestroyReadings.

Context {C : Collaborators}.

(** The deletions on the store alone, one instance after the other. *)
Fixpoint destroy_each (instances : list record) (d : db) : result db :=
  match instances with
  | [] => Ok d
  | instance :: instances' =>
      do d' <- perform_destroy d instance;
      destroy_each instances' d'
  end.

Definition destroy_calls (instances : list record) : list call :=
  map CallPerformDestroy instances.

End DestroyReadings.

(** ** Model meta helpers ([dynamic_rest/meta.py]) *)

Module Meta.

(** The classes [get_model_field_and_type] and [is_field_remote] test a
    field against. *)
Inductive cls :=
  | RelatedObject
  | OneToOneField
  | OneToOneRel
  | ManyToManyField
  | ManyToOneRel
  | ManyToManyRel
  | ForeignKey.

(** A model as these helpers see it: [meta.get_field], which may raise
    [FieldDoesNotExist] ([None] here), the reverse relationships of
    [get_model_relationships(meta)] and the virtual fields, when the meta
    has the attribute. *)
Record model (F : Type) := Model {
  get_field : string -> option F;
  relationships : gmap string F;
  virtual_fields : option (gmap string F);
}.
Arguments Model {F}.
Arguments get_field {F}.
Arguments relationships {F}.
Arguments virtual_fields {F}.

(** What a lookup gives: a field, [None], or an [AttributeError]. *)
Inductive lookup_result (F : Type) :=
  | Found (f : F)
  | NoModel
  | NotAField (name : string).
Arguments Found {F}.
Arguments NoModel {F}.
Arguments NotAField {F}.

Section Helpers.

Context {F : Type}.

(** [isinstance(field, cls)] and [field.field] of a [RelatedObject]. *)
Variable isinstance : F -> cls -> bool.
Variable inner : F -> F.

(** [get_model_field(model, field_name)] *)
Definition get_model_field (m : option (model F)) (field_name : string)
    : lookup_result F :=
  match m with
  | None => NoModel
  | Some m =>
      match get_field m field_name with
      | Some f => Found f
      | None =>
          match relationships m !! field_name with
          | Some f => Found f
          | None =>
              match virtual_fields m with
              | Some virtual =>
                  match virtual !! field_name with
                  | Some f => Found f
                  | None => NotAField field_name
                  end
              | None => NotAField field_name
              end
          end
      end
  end.

(** [is_model_field(model, field_name)] *)
Definition is_model_field (m : option (model F)) (field_name : string) : bool :=
  match get_model_field m field_name with
  | NotAField _ => false
  | _ => true
  end.

(** The [type_map] of [get_model_field_and_type], in its order. *)
Definition type_map : list (cls * string) :=
  [(OneToOneField, "o2o"); (OneToOneRel, "o2or"); (ManyToManyField, "m2m");
   (ManyToOneRel, "m2o"); (ManyToManyRel, "m2m"); (ForeignKey, "fk")].

(** [for cls, type_str in type_map: if isinstance(field, cls): return ...] *)
Fixpoint first_type (f : F) (types : list (cls * string)) : string :=
  match types with
  | [] => EmptyString
  | (c, type_str) :: types' =>
      if isinstance f c then type_str else first_type f types'
  end.

(** What [get_model_field_and_type] gives: the field with its type, or an
    exception. *)
Inductive typed_result :=
  | Typed (f : option F) (type_str : string)
  | FieldError (name : string)       (* the AttributeError of the lookup *)
  | UnexpectedFieldType.             (* RuntimeError("Unexpected field type") *)

(** [get_model_field_and_type(model, field_name)] *)
Definition get_model_field_and_type (m : option (model F)) (field_name : string)
    : typed_result :=
  match get_model_field m field_name with
  | NotAField name => FieldError name
  | NoModel => Typed None EmptyString
  | Found f =>
      if isinstance f RelatedObject then
        if isinstance (inner f) OneToOneField then Typed (Some f) "o2or"
        else if isinstance (inner f) ManyToManyField then Typed (Some f) "m2m"
        else if isinstance (inner f) ForeignKey then Typed (Some f) "m2o"
        else UnexpectedFieldType
      else Typed (Some f) (first_type f type_map)
  end.

(** [is_field_remote(model, field_name)]; [has_meta] is
    [hasattr(model, '_meta')].  [None] is the [AttributeError] of the
    lookup. *)
Definition is_field_remote (has_meta : bool) (m : option (model F))
    (field_name : string) : option bool :=
  if negb has_meta then Some false
  else
    match get_model_field m field_name with
    | NotAField _ => None
    | NoModel => Some false
    | Found f => Some (isinstance f ManyToManyField || isinstance f RelatedObject)
    end.

End Helpers.

End Meta.

(** A name without a dot, not empty. *)
Definition plain (f : string) : Prop :=
  Py.nonempty f = true /\ Py.contains "." f = false.

(** A view on the sample store whose deletions take effect, which
    refuses to delete locked rows and to save a fur that is no string. *)
Definition deleting_view : Collaborators := {|
  db := list (list (string * json));
  record := list (string * json);
  queryset := unit;
  serializer := json;
  plural_name := "dogs";
  lookup_url_kwarg := "pk";
  ENABLE_BULK_PARTIAL_CREATION := true;
  ENABLE_BULK_UPDATE := true;
  ENABLE_PATCH_ALL := true;
  features := sample_features;
  is_truthy := sample_is_truthy;
  json_loads := sample_json_loads;
  all_fields := sample_fields;
  related_fields := {[ "owner" := "owner" ]};
  filter_queryset := fun _ => Ok tt;
  qs_iter := fun d _ => d;
  qs_first := fun d _ => head d;
  qs_update := fun d _ _ => Ok (d, List.length d);
  setattr := fun r k v => dict_set k v r;
  save := fun d r =>
    match dict_get "fur" r with
    | Some (JStr _) => Ok d
    | _ => Raise (OtherError "DataError: fur")
    end;
  data_str := fun values => String.concat ", " (map fst values);
  validate := fun _ entry => sample_validate entry;
  perform_create := fun d s => Raise (OtherError "read only");
  to_representation := fun _ r => JObj r;
  sideload := fun items => [("dogs", JList items)];
  validate_many := fun _ _ data _ => Valid data;
  perform_update := fun d s => Ok (d, s);
  destroy_instances := fun d _ => Ok d;
  check_object_permissions := fun r =>
    match dict_get "locked" r with
    | Some (JBool true) => Raise (OtherError "PermissionDenied")
    | _ => Ok tt
    end;
  perform_destroy := fun d r =>
    Ok (filter (fun row => negb (bool_decide (row_id row = row_id r))) d);
  getattr_related := fun _ obj src => sample_getattr obj src;
  related_data := fun _ r => JObj r;
  super_create := fun data d => (d, Ok (Response (Some data) HTTP_201_CREATED));
  super_update := fun data _ d => (d, Ok (Response (Some data) HTTP_200_OK));
  super_destroy := fun _ _ d => (d, Ok (Response None HTTP_204_NO_CONTENT));
|}.

(** Sample fields for the meta helpers: a field is its class, and
    [isinstance] follows the subclassing of one-to-one fields and
    relations. *)
Definition sample_isinstance (f c : Meta.cls) : bool :=
  match f, c with
  | Meta.OneToOneField, (Meta.OneToOneField | Meta.ForeignKey) => true
  | Meta.OneToOneRel, (Meta.OneToOneRel | Meta.ManyToOneRel) => true
  | Meta.RelatedObject, Meta.RelatedObject => true
  | Meta.ManyToManyField, Meta.ManyToManyField => true
  | Meta.ManyToOneRel, Meta.ManyToOneRel => true
  | Meta.ManyToManyRel, Meta.ManyToManyRel => true
  | Meta.ForeignKey, Meta.ForeignKey => true
  | _, _ => false
  end.

Definition sample_model : Meta.model Meta.cls :=
  Meta.Model
    (fun name => if String.eqb name "profile" then Some Meta.OneToOneField
                 else if String.eqb name "location" then Some Meta.ForeignKey
                 else None)
    {[ "cats" := Meta.ManyToOneRel ]}
    None.

(** * Properties *)

Local Open Scope list_scope.

(** ** The patch-all parameter *)

Lemma nonempty_false (s : string) : Py.nonempty s = false <-> s = EmptyString.
Proof. destruct s; simpl; split; congruence. Qed.

Lemma nonempty_true (s : string) : Py.nonempty s = true <-> s <> EmptyString.
Proof. destruct s; simpl; split; congruence. Qed.

Lemma get_request_feature_single_enabled features qp name :
  name ∈ features ->
  get_request_feature_single features qp name = qp_get name qp.
Proof.
  intros Hin. unfold get_request_feature_single, is_feature.
  by rewrite bool_decide_eq_true_2.
Qed.

Lemma get_request_feature_single_disabled features qp name :
  name ∉ features ->
  get_request_feature_single features qp name = None.
Proof.
  intros Hin. unfold get_request_feature_single, is_feature.
  by rewrite bool_decide_eq_false_2.
Qed.

(** A viewset without the patch-all feature never sees a mode. *)
Lemma get_request_patch_all_disabled is_truthy features qp :
  PATCH_ALL ∉ features ->
  get_request_patch_all is_truthy features qp = Ok None.
Proof.
  intros Hin. unfold get_request_patch_all.
  by rewrite get_request_feature_single_disabled.
Qed.

(** C7: with the patch-all feature enabled, parsing the parameter gives
    [None] when it is absent or empty, the mode "query" when its lowercased
    value is "query", loop mode ([True]) when its lowercased value is
    truthy, and a [ParseError] for every other non-empty value. *)
Theorem get_request_patch_all_modes (is_truthy : string -> bool)
    (features : list string) (qp : QueryParams) :
  PATCH_ALL ∈ features ->
  let parsed := get_request_patch_all is_truthy features qp in
  ((qp_get PATCH_ALL qp = None \/ qp_get PATCH_ALL qp = Some EmptyString) ->
     parsed = Ok None)
  /\ (forall v, qp_get PATCH_ALL qp = Some v -> v <> EmptyString ->
        Py.lower v = "query" -> parsed = Ok (Some ModeQuery))
  /\ (forall v, qp_get PATCH_ALL qp = Some v -> v <> EmptyString ->
        Py.lower v <> "query" -> is_truthy (Py.lower v) = true ->
        parsed = Ok (Some ModeLoop))
  /\ (forall v, qp_get PATCH_ALL qp = Some v -> v <> EmptyString ->
        Py.lower v <> "query" -> is_truthy (Py.lower v) = false ->
        parsed = Raise (ParseError
                          (quoted (Py.lower v) +:+ " is not valid for patch-all"))).
Proof.
  intros Hin parsed. subst parsed. unfold get_request_patch_all.
  rewrite get_request_feature_single_enabled by done.
  split; [| split; [| split]].
  - intros [-> | ->]; reflexivity.
  - intros v -> Hv Hq. simpl.
    apply nonempty_true in Hv. rewrite Hv. simpl.
    by rewrite Hq.
  - intros v -> Hv Hq Ht. simpl.
    apply nonempty_true in Hv. rewrite Hv. simpl.
    apply String.eqb_neq in Hq. by rewrite Hq, Ht.
  - intros v -> Hv Hq Ht. simpl.
    apply nonempty_true in Hv. rewrite Hv. simpl.
    apply String.eqb_neq in Hq. by rewrite Hq, Ht.
Qed.

Lemma get_request_patch_all_modes_witness :
  get_request_patch_all sample_is_truthy sample_features [] = Ok None
  /\ get_request_patch_all sample_is_truthy sample_features
       [("patch-all", ["Query"])] = Ok (Some ModeQuery)
  /\ get_request_patch_all sample_is_truthy sample_features
       [("patch-all", ["TRUE"])] = Ok (Some ModeLoop)
  /\ get_request_patch_all sample_is_truthy sample_features
       [("patch-all", ["False"])]
     = Raise (ParseError (quoted "false" +:+ " is not valid for patch-all")).
Proof.
  assert (Hin : PATCH_ALL ∈ sample_features) by (vm_compute; set_solver).
  split; [| split; [| split]].
  - apply (get_request_patch_all_modes sample_is_truthy sample_features [] Hin).
    left; reflexivity.
  - apply (get_request_patch_all_modes sample_is_truthy sample_features
             [("patch-all", ["Query"])] Hin) with (v := "Query");
      [reflexivity | discriminate | reflexivity].
  - apply (get_request_patch_all_modes sample_is_truthy sample_features
             [("patch-all", ["TRUE"])] Hin) with (v := "TRUE");
      [reflexivity | discriminate | discriminate | reflexivity].
  - apply (get_request_patch_all_modes sample_is_truthy sample_features
             [("patch-all", ["False"])] Hin) with (v := "False");
      [reflexivity | discriminate | discriminate | reflexivity].
Defined.

(** ** Request fields *)

Lemma split_not_nil (c : ascii) (s : string) : Py.split c s <> [].
Proof.
  induction s as [| a s IH]; simpl; [discriminate |].
  destruct (Ascii.eqb a c); [discriminate |].
  destruct (Py.split c s); discriminate.
Qed.

Lemma has_inner_empty_iff (segs : list string) :
  has_inner_empty segs = true
  <-> exists i, S i < List.length segs /\ segs !! i = Some EmptyString.
Proof.
  induction segs as [| s [| s2 rest] IH].
  - simpl. split; [discriminate | intros (i & Hi & _); simpl in Hi; lia].
  - simpl. split; [discriminate | intros (i & Hi & _); simpl in Hi; lia].
  - change (has_inner_empty (s :: s2 :: rest))
      with (negb (Py.nonempty s) || has_inner_empty (s2 :: rest)).
    rewrite orb_true_iff, IH, negb_true_iff, nonempty_false. split.
    + intros [-> | (i & Hi & Hl)].
      * exists 0. split; [simpl; lia | reflexivity].
      * exists (S i). split; [simpl in *; lia | exact Hl].
    + intros ([| i] & Hi & Hl).
      * left. simpl in Hl. congruence.
      * right. exists i. split; [simpl in *; lia | exact Hl].
Qed.

Lemma add_segments_cons field include s s2 rest cur :
  add_segments field include (s :: s2 :: rest) cur
  = if Py.nonempty s then
      match cur with
      | RLeaf _ => Raise (TypeError "argument of type 'bool' is not iterable")
      | RNode m =>
          do child' <- add_segments field include (s2 :: rest)
                         (default (RNode ∅) (m !! s));
          Ok (RNode (<[s := child']> m))
      end
    else Raise (ParseError (quoted field +:+ " is not a valid field.")).
Proof. reflexivity. Qed.

Lemma add_segments_last field include s cur :
  add_segments field include [s] cur
  = if Py.nonempty s then
      match cur with
      | RLeaf _ => Raise (TypeError "'bool' object does not support item assignment")
      | RNode m => Ok (RNode (<[s := RLeaf include]> m))
      end
    else Ok cur.
Proof. reflexivity. Qed.

Lemma rf_clear_cons s s2 rest cur :
  rf_clear (s :: s2 :: rest) cur
  = if Py.nonempty s then
      match cur with
      | RLeaf _ => false
      | RNode m => rf_clear (s2 :: rest) (default (RNode ∅) (m !! s))
      end
    else true.
Proof. reflexivity. Qed.

Lemma has_inner_empty_cons s s2 rest :
  has_inner_empty (s :: s2 :: rest)
  = negb (Py.nonempty s) || has_inner_empty (s2 :: rest).
Proof. reflexivity. Qed.

(** An empty segment before the last one is a [ParseError], as long as
    the walk meets no boolean on its way. *)
Lemma add_segments_inner_empty field include segs cur :
  rf_clear segs cur = true ->
  has_inner_empty segs = true ->
  add_segments field include segs cur
  = Raise (ParseError (quoted field +:+ " is not a valid field.")).
Proof.
  revert cur. induction segs as [| s rest IH]; intros cur Hc He.
  - discriminate.
  - destruct rest as [| s2 rest]; [discriminate |].
    rewrite has_inner_empty_cons in He. rewrite rf_clear_cons in Hc.
    rewrite add_segments_cons.
    destruct (Py.nonempty s) eqn:Hs; [| reflexivity].
    destruct cur as [b | m]; [discriminate |].
    simpl in He. rewrite (IH _ Hc He). reflexivity.
Qed.

(** The fresh request-field map blocks no path. *)
Lemma rf_clear_empty segs : rf_clear segs (RNode ∅) = true.
Proof.
  induction segs as [| s rest IH]; [reflexivity |].
  cbn [rf_clear]. destruct (Py.nonempty s); [| reflexivity].
  destruct rest; [reflexivity |].
  rewrite lookup_empty. exact IH.
Qed.

(** Without an inner empty segment the walk succeeds; the path up to the
    last non-empty segment is then bound in the result: to [include] when
    the last segment is not empty, and to the dict that was there (the
    empty one when there was none) when it is. *)
Lemma add_segments_ok field include segs cur :
  rf_clear segs cur = true ->
  has_inner_empty segs = false ->
  exists cur',
    add_segments field include segs cur = Ok cur'
    /\ (forall path, segs = (path ++ [EmptyString]) ->
          rf_lookup path cur'
          = Some (default (RNode ∅) (rf_lookup path cur)))
    /\ (forall seg, last segs = Some seg -> seg <> EmptyString ->
          rf_lookup segs cur' = Some (RLeaf include)).
Proof.
  revert cur. induction segs as [| s rest IH]; intros cur Hc He.
  - exists cur. split; [reflexivity |]. split.
    + intros path Hp. destruct path; discriminate.
    + intros seg Hl. discriminate.
  - destruct rest as [| s2 rest].
    + (* the last segment *)
      rewrite add_segments_last. simpl in Hc.
      destruct (Py.nonempty s) eqn:Hs.
      * destruct cur as [b | m]; [discriminate |].
        eexists. split; [reflexivity |]. split.
        -- intros path Hp. destruct path as [| p [| p2 path]]; simplify_eq/=.
        -- intros seg _ _. cbn [rf_lookup]. by rewrite lookup_insert_eq.
      * exists cur. split; [reflexivity |]. split.
        -- intros path Hp. destruct path as [| p [| p2 path]]; simplify_eq/=.
           reflexivity.
        -- intros seg Hl Hne. simpl in Hl. simplify_eq.
           apply nonempty_false in Hs. contradiction.
    + rewrite has_inner_empty_cons in He. rewrite rf_clear_cons in Hc.
      rewrite add_segments_cons.
      apply orb_false_iff in He as [Hs He]. apply negb_false_iff in Hs.
      rewrite Hs in Hc |- *.
      destruct cur as [b | m]; [discriminate |].
      destruct (IH _ Hc He) as (child' & Hrun & Hempty & Hleaf).
      rewrite Hrun. simpl bind. eexists. split; [reflexivity |]. split.
      * intros path Hp. destruct path as [| p path]; [discriminate |].
        injection Hp as -> Hp.
        cbn [rf_lookup]. rewrite lookup_insert_eq.
        rewrite (Hempty path Hp).
        destruct (m !! p) as [child |] eqn:Hm; simpl.
        -- reflexivity.
        -- destruct path; simpl; [reflexivity |]. by rewrite lookup_empty.
      * intros seg Hl Hne. cbn [rf_lookup]. rewrite lookup_insert_eq.
        apply (Hleaf seg); [| exact Hne].
        exact Hl.
Qed.

(** X1: One value of include[] or exclude[], processed against a request-field
    map in which no proper prefix of its path is bound to a boolean: an
    empty segment before the last one is a [ParseError]; otherwise the
    value is accepted, an empty last segment leaves the path before it
    bound to its dict (the empty dict when it was not bound), and a
    non-empty last segment is bound to [True] for include[] and to [False]
    for exclude[]. *)
Lemma add_field_segments (include : bool) (field : string) (cur : rfield) :
  let segs := Py.split "." field in
  rf_clear segs cur = true ->
  ((exists i, S i < List.length segs /\ segs !! i = Some EmptyString) ->
     add_field include field cur
     = Raise (ParseError (quoted field +:+ " is not a valid field.")))
  /\ ((forall i, S i < List.length segs -> segs !! i <> Some EmptyString) ->
      exists cur',
        add_field include field cur = Ok cur'
        /\ (forall path, segs = (path ++ [EmptyString]) ->
              rf_lookup path cur'
              = Some (default (RNode ∅) (rf_lookup path cur)))
        /\ (forall seg, last segs = Some seg -> seg <> EmptyString ->
              rf_lookup segs cur' = Some (RLeaf include))).
Proof.
  intros segs Hc. split.
  - intros Hi. apply has_inner_empty_iff in Hi.
    by apply add_segments_inner_empty.
  - intros Hi. apply add_segments_ok; [exact Hc |].
    destruct (has_inner_empty segs) eqn:He; [| reflexivity].
    apply has_inner_empty_iff in He as (i & Hlt & Hl).
    by destruct (Hi i Hlt).
Qed.

(** On the fresh map of a request every value is processed as above, and
    the relation before an empty last segment gets the empty dict. *)
Lemma add_field_fresh (include : bool) (field : string) :
  let segs := Py.split "." field in
  ((exists i, S i < List.length segs /\ segs !! i = Some EmptyString) ->
     add_field include field (RNode ∅)
     = Raise (ParseError (quoted field +:+ " is not a valid field.")))
  /\ ((forall i, S i < List.length segs -> segs !! i <> Some EmptyString) ->
      exists cur',
        add_field include field (RNode ∅) = Ok cur'
        /\ (forall seg path, segs = (path ++ [seg; EmptyString]) ->
              rf_lookup (path ++ [seg]) cur' = Some (RNode ∅))
        /\ (forall seg, last segs = Some seg -> seg <> EmptyString ->
              rf_lookup segs cur' = Some (RLeaf include))).
Proof.
  intros segs.
  destruct (add_field_segments include field (RNode ∅) (rf_clear_empty _))
    as [Herr Hok].
  split; [exact Herr |].
  intros Hi. destruct (Hok Hi) as (cur' & Hrun & Hempty & Hleaf).
  exists cur'. split; [exact Hrun |]. split; [| exact Hleaf].
  intros seg path Hp.
  rewrite (Hempty (path ++ [seg])).
  - destruct path; simpl; by rewrite lookup_empty.
  - fold segs. rewrite Hp. by rewrite <- app_assoc.
Qed.

(** The scenarios of the specification: a trailing dot selects the whole
    relation, an empty inner segment is refused. *)
Example include_trailing_dot :
  get_request_fields sample_features [("include[]", ["location."])]
  = Ok (RNode {[ "location" := RNode ∅ ]}).
Proof. reflexivity. Qed.

Example include_inner_empty :
  get_request_fields sample_features [("include[]", ["loc.cat_set..name"])]
  = Raise (ParseError (quoted "loc.cat_set..name" +:+ " is not a valid field.")).
Proof. reflexivity. Qed.

Example include_and_exclude :
  get_request_fields sample_features
    [("include[]", ["name"; "location.profile."]);
     ("exclude[]", ["id"; "location.name"])]
  = Ok (RNode {[ "id" := RLeaf false;
                 "name" := RLeaf true;
                 "location" := RNode {[ "name" := RLeaf false;
                                        "profile" := RNode ∅ ]} ]}).
Proof. vm_compute. reflexivity. Qed.

(** C6, where the code departs from it: a value whose path runs through a
    key that an earlier value bound to a boolean is neither parsed into the
    request-field map nor refused with a [ParseError]; the walk reads or
    writes a key of the boolean and raises [TypeError]. *)
Theorem get_request_fields_prefix_conflict :
  get_request_fields sample_features [("include[]", ["a"; "a.b"])]
  = Raise (TypeError "'bool' object does not support item assignment")
  /\ get_request_fields sample_features [("include[]", ["a"; "a.b..c"])]
     = Raise (TypeError "argument of type 'bool' is not iterable").
Proof. split; reflexivity. Qed.

(** ** Python dicts *)

Lemma dict_get_set_eq {V} (k : string) (v : V) d :
  dict_get k (dict_set k v d) = Some v.
Proof.
  induction d as [| [k' v'] d IH]; simpl.
  - by rewrite String.eqb_refl.
  - destruct (String.eqb k' k) eqn:Hk; simpl.
    + by rewrite String.eqb_refl.
    + by rewrite Hk.
Qed.

Lemma dict_get_set_ne {V} (k k' : string) (v : V) d :
  k <> k' -> dict_get k' (dict_set k v d) = dict_get k' d.
Proof.
  intros Hne. induction d as [| [k0 v0] d IH]; simpl.
  - apply String.eqb_neq in Hne. by rewrite Hne.
  - destruct (String.eqb k0 k) eqn:Hk; simpl.
    + apply String.eqb_eq in Hk as ->.
      apply String.eqb_neq in Hne. by rewrite Hne.
    + destruct (String.eqb k0 k'); [reflexivity | exact IH].
Qed.

Lemma dict_get_set {V} (k k' : string) (v : V) d :
  dict_get k' (dict_set k v d)
  = if String.eqb k k' then Some v else dict_get k' d.
Proof.
  destruct (String.eqb k k') eqn:Hk.
  - apply String.eqb_eq in Hk as ->. apply dict_get_set_eq.
  - apply String.eqb_neq in Hk. by apply dict_get_set_ne.
Qed.

Section Collect.

Context {A V : Type} (key : A -> option string) (val : string -> A -> V).

Lemma collect_other k l acc :
  Forall (fun x => key x <> Some k) l ->
  dict_get k (fold_left (collect key val) l acc) = dict_get k acc.
Proof.
  revert acc. induction l as [| x l IH]; intros acc Hf; [reflexivity |].
  inversion_clear Hf. simpl. rewrite IH by assumption.
  unfold collect. destruct (key x) as [k' |]; [| reflexivity].
  apply dict_get_set_ne. congruence.
Qed.

Lemma collect_mem k l acc :
  is_Some (dict_get k (fold_left (collect key val) l acc))
  <-> is_Some (dict_get k acc) \/ exists x, x ∈ l /\ key x = Some k.
Proof.
  revert acc. induction l as [| x l IH]; intros acc; simpl.
  - split; [by left |]. intros [H | (x & Hin & _)]; [done |].
    by apply elem_of_nil in Hin.
  - rewrite IH. unfold collect at 1.
    destruct (key x) as [k' |] eqn:Hk.
    + rewrite dict_get_set. destruct (String.eqb k' k) eqn:Hkk.
      * apply String.eqb_eq in Hkk as ->. split.
        -- intros _. right. exists x. split; [apply elem_of_cons; by left | done].
        -- intros _. left. by eexists.
      * apply String.eqb_neq in Hkk. split.
        -- intros [H | (y & Hin & Hy)]; [by left |].
           right. exists y. split; [apply elem_of_cons; by right | done].
        -- intros [H | (y & Hin & Hy)]; [by left |].
           apply elem_of_cons in Hin as [-> | Hin]; [congruence |].
           right. by exists y.
    + split.
      * intros [H | (y & Hin & Hy)]; [by left |].
        right. exists y. split; [apply elem_of_cons; by right | done].
      * intros [H | (y & Hin & Hy)]; [by left |].
        apply elem_of_cons in Hin as [-> | Hin]; [congruence |].
        right. by exists y.
Qed.

(** The last element with key [k] decides the value under [k]. *)
Lemma collect_last k before x after acc :
  key x = Some k ->
  Forall (fun y => key y <> Some k) after ->
  dict_get k (fold_left (collect key val) (before ++ x :: after) acc)
  = Some (val k x).
Proof.
  intros Hk Hafter. rewrite fold_left_app. simpl.
  rewrite collect_other by assumption.
  unfold collect at 1. rewrite Hk. apply dict_get_set_eq.
Qed.


End Collect.

(** ** Object-type features *)

Section ExtractProperties.

Variable json_loads : string -> result json.

Lemma extract_loop_cons name raw key value params acc :
  malformed_key name key = false ->
  raw_hit name (key, value) && raw = false ->
  extract_loop json_loads name raw ((key, value) :: params) acc
  = extract_loop json_loads name raw params (extract_step name acc (key, value)).
Proof.
  unfold malformed_key, raw_hit, extract_step, collect, subkey.
  cbn [extract_loop fst snd]. intros Hm Hr.
  destruct (String.eqb key name) eqn:Hk; simpl in *.
  - destruct raw; [| reflexivity].
    destruct value; [reflexivity | discriminate].
  - destruct (Py.startswith _ key); simpl in *; [| reflexivity].
    destruct (Py.endswith "}" key); simpl in *; [reflexivity |].
    destruct (Py.endswith "}[]" key); simpl in *; [reflexivity | discriminate].
Qed.

Lemma extract_loop_malformed name raw key value params acc :
  malformed_key name key = true ->
  extract_loop json_loads name raw ((key, value) :: params) acc
  = Raise (ParseError (quoted key +:+ " is not a well-formed filter key.")).
Proof.
  unfold malformed_key. cbn [extract_loop]. intros Hm.
  repeat (apply andb_true_iff in Hm as [Hm ?]).
  apply negb_true_iff in Hm. rewrite Hm.
  repeat match goal with
         | H : negb _ = true |- _ => apply negb_true_iff in H; rewrite H
         | H : _ = true |- _ => rewrite H
         end.
  reflexivity.
Qed.

Lemma extract_loop_prefix name raw before params acc :
  Forall (fun kv => malformed_key name (fst kv) = false) before ->
  Forall (fun kv => raw_hit name kv && raw = false) before ->
  extract_loop json_loads name raw (before ++ params) acc
  = extract_loop json_loads name raw params
      (fold_left (extract_step name) before acc).
Proof.
  revert acc. induction before as [| [key value] before IH]; intros acc Hm Hr.
  - reflexivity.
  - inversion_clear Hm. inversion_clear Hr. simpl app.
    rewrite extract_loop_cons by assumption.
    rewrite IH by assumption. reflexivity.
Qed.

Lemma extract_loop_nil name raw acc :
  extract_loop json_loads name raw [] acc
  = Ok (if raw then ExNone else ExMap acc).
Proof. reflexivity. Qed.

End ExtractProperties.

Lemma extract_step_other name sub after acc :
  Forall (fun kv => subkey name (fst kv) <> Some sub) after ->
  dict_get sub (fold_left (extract_step name) after acc) = dict_get sub acc.
Proof. apply collect_other. Qed.

Lemma extract_step_mem name sub params acc :
  is_Some (dict_get sub (fold_left (extract_step name) params acc))
  <-> is_Some (dict_get sub acc)
      \/ exists kv, kv ∈ params /\ subkey name (fst kv) = Some sub.
Proof. apply collect_mem. Qed.

(** C8 as stated fails in raw mode: the loop returns at the raw form
    [filter{}=...] and the unclosed key after it is never looked at. *)
Lemma extract_object_params_raw_skips :
  malformed_key FILTER "filter{foo" = true
  /\ _extract_object_params sample_json_loads
       [("filter{}", ["{}"]); ("filter{foo", ["bar"])] FILTER true
     = Ok (ExRaw (JObj [])).
Proof. split; reflexivity. Qed.

(** C8, amended: the parameters are scanned in order, up to the raw form
    of the feature when [raw] is set.  The first key met that starts with
    the prefix (the name minus its closing brace), is not the feature name
    and ends with neither [}] nor [}[]] raises a [ParseError] naming it.
    When no key is malformed and the scan is not cut short, every key with
    a closed brace form is entered under its subkey, the key stripped of
    the prefix and of the brace suffix; the last such key gives the value. *)
Theorem extract_object_params_keys (json_loads : string -> result json)
    (name : string) (raw : bool) (qp : QueryParams) :
  (forall before key value after,
      qp = before ++ (key, value) :: after ->
      Forall (fun kv => malformed_key name (fst kv) = false) before ->
      Forall (fun kv => raw_hit name kv && raw = false) before ->
      malformed_key name key = true ->
      _extract_object_params json_loads qp name raw
      = Raise (ParseError (quoted key +:+ " is not a well-formed filter key.")))
  /\ (Forall (fun kv => malformed_key name (fst kv) = false) qp ->
      Forall (fun kv => raw_hit name kv && raw = false) qp ->
      exists params_map,
        _extract_object_params json_loads qp name raw
        = Ok (if raw then ExNone else ExMap params_map)
        /\ (forall sub,
              is_Some (dict_get sub params_map)
              <-> exists kv, kv ∈ qp /\ subkey name (fst kv) = Some sub)
        /\ (forall before key value after sub,
              qp = before ++ (key, value) :: after ->
              subkey name key = Some sub ->
              Forall (fun kv => subkey name (fst kv) <> Some sub) after ->
              dict_get sub params_map = Some (subvalue sub value))).
Proof.
  unfold _extract_object_params. split.
  - intros before key value after -> Hm Hr Hk.
    rewrite extract_loop_prefix by assumption.
    by apply extract_loop_malformed.
  - intros Hm Hr.
    exists (fold_left (extract_step name) qp []). split; [| split].
    + rewrite <- (app_nil_r qp) at 1.
      rewrite extract_loop_prefix by assumption. apply extract_loop_nil.
    + intros sub. rewrite extract_step_mem. simpl. split.
      * intros [[x Hx] | H]; [discriminate | exact H].
      * intros H; by right.
    + intros before key value after sub -> Hk Hafter.
      unfold extract_step.
      by rewrite (collect_last _ _ sub before (key, value) after []).
Qed.

Lemma extract_object_params_keys_witness :
  _extract_object_params sample_json_loads
    [("filter{name}", ["a"]); ("filter{foo", ["x"]); ("filter{id}", ["1"])]
    FILTER false
  = Raise (ParseError (quoted "filter{foo" +:+ " is not a well-formed filter key."))
  /\ exists params_map,
       _extract_object_params sample_json_loads
         [("filter{name}", ["a"]); ("sort[]", ["name"]);
          ("filter{id.in}[]", ["[1,2]"; "3"])]
         FILTER false
       = Ok (ExMap params_map)
       /\ dict_get "id.in" params_map = Some ["1"; "2"; "3"].
Proof.
  split.
  - apply (extract_object_params_keys sample_json_loads FILTER false
             [("filter{name}", ["a"]); ("filter{foo", ["x"]); ("filter{id}", ["1"])])
      with (before := [("filter{name}", ["a"])]) (value := ["x"])
           (after := [("filter{id}", ["1"])]).
    + reflexivity.
    + repeat constructor.
    + repeat constructor.
    + reflexivity.
  - destruct (extract_object_params_keys sample_json_loads FILTER false
                [("filter{name}", ["a"]); ("sort[]", ["name"]);
                 ("filter{id.in}[]", ["[1,2]"; "3"])]) as [_ Hok].
    destruct Hok as (params_map & Hrun & _ & Hval).
    + repeat constructor.
    + repeat constructor.
    + exists params_map. split; [exact Hrun |].
      apply (Hval [("filter{name}", ["a"]); ("sort[]", ["name"])]
               "filter{id.in}[]" ["[1,2]"; "3"] [] "id.in").
      * reflexivity.
      * reflexivity.
      * constructor.
Defined.

(** ** Patch-all: validation of the payload *)

Section ValidatePatchAll.

Context {C : Collaborators}.




(** The message of a refusal names the key. *)
Lemma patch_error_names name :
  exists intro, patch_error name = intro +:+ quoted name.
Proof.
  unfold patch_error. destruct (all_fields !! name); eexists; reflexivity.
Qed.






End ValidatePatchAll.



(** ** Patch-all: the two update strategies *)

Section PatchAll.

Context {C : Collaborators}.

Lemma save_loop_cons values r records updated w :
  save_loop values (r :: records) updated w
  = match save (w_db w) (set_all values r) with
    | Ok d' =>
        save_loop values records (S updated)
          (World d' (w_calls w ++ [CallSave (set_all values r)]))
    | Raise e =>
        (World (w_db w) (w_calls w ++ [CallSave (set_all values r)]), Raise e)
    end.
Proof.
  destruct w as [d calls]. cbn [save_loop]. unfold mbind, log, get_db, lift, put_db.
  simpl. destruct (save d (set_all values r)); reflexivity.
Qed.

Lemma save_loop_prefix values before records updated w d1 :
  save_each values before (w_db w) = Ok d1 ->
  save_loop values (before ++ records) updated w
  = save_loop values records (updated + List.length before)
      (World d1 (w_calls w ++ save_calls values before)).
Proof.
  revert updated w. induction before as [| r before IH]; intros updated w Hs.
  - simpl in *. injection Hs as <-. destruct w. simpl.
    by rewrite app_nil_r, Nat.add_0_r.
  - simpl in Hs. simpl app. rewrite save_loop_cons.
    destruct (save (w_db w) (set_all values r)) as [d' | e]; [| discriminate].
    simpl in Hs.
    rewrite (IH (S updated)
               (World d' (w_calls w ++ [CallSave (set_all values r)])) Hs).
    simpl. rewrite <- app_assoc. simpl. f_equal. lia.
Qed.

(** C1: loop mode sets the values on each record of the filtered queryset
    and saves it, one after the other, inside one atomic block.  When the
    save of a record raises an [IntegrityError], the store is back in its
    state at entry, whatever was saved before, and the request fails with a
    [ValidationError] whose message holds the message of the store and the
    data; when every save passes, all are kept and their number returned. *)
Theorem patch_all_loop_atomic (qs : queryset) (values : list (string * json))
    (w : world) :
  (forall before r after d1 msg,
      qs_iter (w_db w) qs = before ++ r :: after ->
      save_each values before (w_db w) = Ok d1 ->
      save d1 (set_all values r) = Raise (IntegrityError msg) ->
      _patch_all_loop qs values w
      = (World (w_db w) (w_calls w ++ save_calls values (before ++ [r])),
         Raise (ValidationError
                  ("Failed to update records:" +:+ nl +:+ msg +:+ nl
                   +:+ "Data: " +:+ data_str values))))
  /\ (forall d',
        save_each values (qs_iter (w_db w) qs) (w_db w) = Ok d' ->
        _patch_all_loop qs values w
        = (World d' (w_calls w ++ save_calls values (qs_iter (w_db w) qs)),
           Ok (List.length (qs_iter (w_db w) qs)))).
Proof.
  split.
  - intros before r after d1 msg Hq Hb Hr.
    unfold _patch_all_loop, except_integrity, atomic.
    unfold mbind at 1. unfold get_db at 1. rewrite Hq.
    rewrite (save_loop_prefix _ _ _ _ _ _ Hb), save_loop_cons. simpl.
    rewrite Hr. simpl. unfold save_calls. rewrite map_app, <- app_assoc.
    reflexivity.
  - intros d' Hs.
    unfold _patch_all_loop, except_integrity, atomic.
    unfold mbind at 1. unfold get_db at 1.
    rewrite <- (app_nil_r (qs_iter (w_db w) qs)) at 1.
    rewrite (save_loop_prefix _ _ _ _ _ _ Hs). reflexivity.
Qed.

(** X17: Any other exception of a save leaves the block as it is, and the
    store is rolled back all the same. *)
Lemma patch_all_loop_other (qs : queryset) (values : list (string * json))
    (w : world) before r after d1 e :
  qs_iter (w_db w) qs = before ++ r :: after ->
  save_each values before (w_db w) = Ok d1 ->
  save d1 (set_all values r) = Raise e ->
  (forall msg, e <> IntegrityError msg) ->
  _patch_all_loop qs values w
  = (World (w_db w) (w_calls w ++ save_calls values (before ++ [r])), Raise e).
Proof.
  intros Hq Hb Hr He.
  unfold _patch_all_loop, except_integrity, atomic.
  unfold mbind at 1. unfold get_db at 1. rewrite Hq.
  rewrite (save_loop_prefix _ _ _ _ _ _ Hb), save_loop_cons. simpl.
  rewrite Hr. simpl. unfold save_calls. rewrite map_app, <- app_assoc.
  destruct e; try reflexivity. by destruct (He msg).
Qed.

End PatchAll.

Lemma patch_all_loop_atomic_witness :
  @_patch_all_loop (sample_view true true true) tt gold
    (@World (sample_view true true true) [dog1; dog2; dog3] [])
  = (@World (sample_view true true true) [dog1; dog2; dog3]
       (@save_calls (sample_view true true true) gold [dog1; dog2]),
     Raise (ValidationError
              ("Failed to update records:" +:+ nl
               +:+ "CHECK constraint failed: locked" +:+ nl
               +:+ "Data: " +:+ "fur")))
  /\ @_patch_all_loop (sample_view true true true) tt gold
       (@World (sample_view true true true) [dog1; dog3] [])
     = (@World (sample_view true true true)
          [dict_set "fur" (JStr "gold") dog1; dict_set "fur" (JStr "gold") dog3]
          (@save_calls (sample_view true true true) gold [dog1; dog3]),
        Ok 2).
Proof.
  split.
  - apply (proj1 (@patch_all_loop_atomic (sample_view true true true) tt gold
                    (@World (sample_view true true true) [dog1; dog2; dog3] []))
             [dog1] dog2 [dog3] [dict_set "fur" (JStr "gold") dog1; dog2; dog3]
             "CHECK constraint failed: locked").
    + reflexivity.
    + reflexivity.
    + reflexivity.
  - apply (proj2 (@patch_all_loop_atomic (sample_view true true true) tt gold
                    (@World (sample_view true true true) [dog1; dog3] []))).
    reflexivity.
Defined.

Section PatchAllQuery.

Context {C : Collaborators}.

(** C4: a patch-all request in query mode succeeds exactly when the
    queryset is obtained, the payload validates and the one bulk update of
    the filtered queryset passes; the response then has status 200 and the
    body [{"meta": {"updated": n}}], [n] being the count the update
    returned, and the update is the only write made. *)
Theorem patch_all_query_response (qp : QueryParams) (data : json)
    (w w' : world) (resp : response) :
  _patch_all qp data true w = (w', Ok resp)
  <-> exists qs values n,
        filter_queryset qp = Ok qs
        /\ _validate_patch_all qp data = Ok values
        /\ qs_update (w_db w) qs values = Ok (w_db w', n)
        /\ w_calls w' = w_calls w ++ [CallUpdate qs values]
        /\ resp = Response
                    (Some (JObj [("meta", JObj [("updated", JNum (Z.of_nat n))])]))
                    200.
Proof.
  unfold _patch_all, _patch_all_query, mbind, lift, log, get_db, put_db, ret, raise.
  destruct w as [d calls], w' as [d' calls']. simpl.
  destruct (filter_queryset qp) as [qs | e].
  - destruct (_validate_patch_all qp data) as [values | e].
    + destruct (qs_update d qs values) as [[d1 n] | e] eqn:Hu; simpl.
      * split.
        -- intros H. injection H as <- <- <-.
           exists qs, values, n. by repeat split.
        -- intros (qs' & values' & n' & Hq & Hv & Hu' & Hc & ->).
           simplify_eq. rewrite Hu in Hu'. by simplify_eq.
      * split; [discriminate |].
        intros (qs' & values' & n' & Hq & Hv & Hu' & _). simplify_eq.
        rewrite Hu in Hu'. discriminate.
    + split; [discriminate |].
      intros (qs' & values' & n' & Hq & Hv & _). discriminate.
  - split; [discriminate |].
    intros (qs' & values' & n' & Hq & _). discriminate.
Qed.

End PatchAllQuery.

(** The scenario of the specification: three rows, the payload
    [{"fur": "gold"}], query mode. *)
Lemma patch_all_query_response_witness :
  @_patch_all (sample_view true true true) [] (JObj gold) true
    (@World (sample_view true true true) [dog1; dog2; dog3] [])
  = (@World (sample_view true true true)
       [dict_set "fur" (JStr "gold") dog1; dict_set "fur" (JStr "gold") dog2;
        dict_set "fur" (JStr "gold") dog3]
       [@CallUpdate (sample_view true true true) tt gold],
     Ok (Response (Some (JObj [("meta", JObj [("updated", JNum 3)])])) 200)).
Proof.
  apply (@patch_all_query_response (sample_view true true true) [] (JObj gold)).
  exists tt, gold, 3%nat. repeat split.
Defined.

(** ** Create-many *)

(** Split the conjunctions of the goal, and only those. *)
Ltac conjs := repeat match goal with |- _ /\ _ => split end.

Section CreateMany.

Context {C : Collaborators}.

Lemma create_one_run s w :
  create_one s w
  = match perform_create (w_db w) s with
    | Ok made =>
        (World (fst made) (w_calls w ++ [CallPerformCreate s]),
         Ok (to_representation (fst made) (snd made)))
    | Raise e => (World (w_db w) (w_calls w ++ [CallPerformCreate s]), Raise e)
    end.
Proof.
  destruct w as [d calls].
  unfold create_one, mbind, log, get_db, lift, put_db, ret. simpl.
  destruct (perform_create d s); reflexivity.
Qed.

Lemma validate_loop_cons qp entry entries st w :
  validate_loop qp (entry :: entries) st w
  = match get_serializer_check qp with
    | Raise e => (w, Raise e)
    | Ok _ =>
        let outcome := validate (w_db w) entry in
        let w1 := World (w_db w) (w_calls w ++ [CallIsValid entry outcome]) in
        match outcome with
        | Invalid detail =>
            validate_loop qp entries
              (CreateState (cs_items st)
                 (cs_errors st ++ [error_entry detail entry]) (cs_serializers st))
              w1
        | Valid s =>
            if ENABLE_BULK_PARTIAL_CREATION then
              match create_one s w1 with
              | (w2, Ok item) =>
                  validate_loop qp entries
                    (CreateState (cs_items st ++ [item]) (cs_errors st)
                       (cs_serializers st))
                    w2
              | (w2, Raise e) => (w2, Raise e)
              end
            else
              validate_loop qp entries
                (CreateState (cs_items st) (cs_errors st) (cs_serializers st ++ [s]))
                w1
        end
    end.
Proof.
  destruct w as [d calls]. cbn [validate_loop].
  unfold mbind at 1. unfold lift at 1.
  destruct (get_serializer_check qp); [| reflexivity].
  unfold mbind at 1. unfold get_db at 1. cbn [w_db w_calls].
  unfold mbind at 1. unfold log at 1. cbn [w_db w_calls].
  destruct (validate d entry); [| reflexivity].
  destruct ENABLE_BULK_PARTIAL_CREATION; [| reflexivity].
  unfold mbind at 1. reflexivity.
Qed.

Lemma failed_entries_app (a b : list call) :
  failed_entries (a ++ b) = failed_entries a ++ failed_entries b.
Proof. apply omap_app. Qed.

Lemma validated_entries_app (a b : list call) :
  validated_entries (a ++ b) = validated_entries a ++ validated_entries b.
Proof. apply omap_app. Qed.

Lemma valid_serializers_app (a b : list call) :
  valid_serializers (a ++ b) = valid_serializers a ++ valid_serializers b.
Proof. apply omap_app. Qed.

Lemma created_app (a b : list call) :
  created (a ++ b) = created a ++ created b.
Proof. apply omap_app. Qed.

(** The first loop when valid items are created at once. *)
Lemma validate_loop_partial qp entries st w w1 r :
  ENABLE_BULK_PARTIAL_CREATION = true ->
  validate_loop qp entries st w = (w1, r) ->
  exists new,
    w_calls w1 = w_calls w ++ new
    /\ immediate_creation new
    /\ created new `prefix_of` valid_serializers new
    /\ (forall st1, r = Ok st1 ->
          validated_entries new = entries
          /\ cs_errors st1 = cs_errors st ++ failed_entries new
          /\ cs_serializers st1 = cs_serializers st
          /\ created new = valid_serializers new
          /\ exists items,
               cs_items st1 = cs_items st ++ items
               /\ create_each (created new) (w_db w) = Ok (w_db w1, items)).
Proof.
  intros Hp. revert st w.
  induction entries as [| entry entries IH]; intros st w Hrun.
  - simpl in Hrun. injection Hrun as <- <-.
    exists []. rewrite app_nil_r.
    split; [reflexivity |]. split; [constructor |]. split; [reflexivity |].
    intros st1 [= <-]. conjs; try (by rewrite app_nil_r); try reflexivity.
    exists []. by rewrite app_nil_r.
  - rewrite validate_loop_cons in Hrun.
    destruct (get_serializer_check qp) as [[] | e].
    2:{ injection Hrun as <- <-. exists []. rewrite app_nil_r.
        split; [reflexivity |]. split; [constructor |]. split; [reflexivity |].
        intros st1; discriminate. }
    cbn zeta in Hrun.
    destruct (validate (w_db w) entry) as [s | detail] eqn:Hv.
    + rewrite Hp, create_one_run in Hrun. cbn [w_db w_calls] in Hrun.
      destruct (perform_create (w_db w) s) as [[d' inst] | e] eqn:Hc.
      * cbn [fst snd] in Hrun.
        destruct (IH _ _ Hrun) as (new & Hcalls & Himm & Hpre & Hok).
        cbn [w_db w_calls] in Hcalls, Hok.
        exists (CallIsValid entry (Valid s) :: CallPerformCreate s :: new).
        split; [rewrite Hcalls, <- !app_assoc; reflexivity |].
        split; [by constructor |].
        split; [simpl; by apply prefix_cons |].
        intros st1 Hr. destruct (Hok st1 Hr) as (Hval & Herr & Hser & Hcr & items & Hit & Hce).
        cbn [cs_items cs_errors cs_serializers] in *.
        conjs.
        -- simpl. by rewrite Hval.
        -- exact Herr.
        -- exact Hser.
        -- simpl. by rewrite Hcr.
        -- exists (to_representation d' inst :: items). split.
           ++ rewrite Hit, <- app_assoc. reflexivity.
           ++ simpl. rewrite Hc. simpl. rewrite Hce. reflexivity.
      * injection Hrun as <- <-.
        exists [CallIsValid entry (Valid s); CallPerformCreate s].
        split; [simpl; rewrite <- app_assoc; reflexivity |].
        split; [repeat constructor |].
        split; [reflexivity |].
        intros st1; discriminate.
    + destruct (IH _ _ Hrun) as (new & Hcalls & Himm & Hpre & Hok).
      cbn [w_db w_calls] in Hcalls, Hok.
      exists (CallIsValid entry (Invalid detail) :: new).
      split; [rewrite Hcalls, <- app_assoc; reflexivity |].
      split; [by constructor |].
      split; [exact Hpre |].
      intros st1 Hr. destruct (Hok st1 Hr) as (Hval & Herr & Hser & Hcr & items & Hit & Hce).
      cbn [cs_items cs_errors cs_serializers] in *.
      conjs.
      * simpl. by rewrite Hval.
      * rewrite Herr, <- app_assoc. reflexivity.
      * exact Hser.
      * exact Hcr.
      * exists items. by split.
Qed.

(** The first loop when creation waits for every item to validate. *)
Lemma validate_loop_strict qp entries st w w1 r :
  ENABLE_BULK_PARTIAL_CREATION = false ->
  validate_loop qp entries st w = (w1, r) ->
  exists new,
    w_calls w1 = w_calls w ++ new
    /\ Forall (validation_on (w_db w)) new
    /\ w_db w1 = w_db w
    /\ (forall st1, r = Ok st1 ->
          validated_entries new = entries
          /\ cs_errors st1 = cs_errors st ++ failed_entries new
          /\ cs_items st1 = cs_items st
          /\ cs_serializers st1 = cs_serializers st ++ valid_serializers new).
Proof.
  intros Hp. revert st w.
  induction entries as [| entry entries IH]; intros st w Hrun.
  - simpl in Hrun. injection Hrun as <- <-.
    exists []. rewrite app_nil_r.
    split; [reflexivity |]. split; [constructor |]. split; [reflexivity |].
    intros st1 [= <-]. conjs; by rewrite ?app_nil_r.
  - rewrite validate_loop_cons in Hrun.
    destruct (get_serializer_check qp) as [[] | e].
    2:{ injection Hrun as <- <-. exists []. rewrite app_nil_r.
        split; [reflexivity |]. split; [constructor |]. split; [reflexivity |].
        intros st1; discriminate. }
    cbn zeta in Hrun. rewrite Hp in Hrun.
    destruct (validate (w_db w) entry) as [s | detail] eqn:Hv;
      destruct (IH _ _ Hrun) as (new & Hcalls & Hall & Hdb & Hok);
      cbn [w_db w_calls] in Hcalls, Hdb, Hok.
    + exists (CallIsValid entry (Valid s) :: new).
      split; [rewrite Hcalls, <- app_assoc; reflexivity |].
      split; [constructor; [simpl; congruence | exact Hall] |].
      split; [exact Hdb |].
      intros st1 Hr. destruct (Hok st1 Hr) as (Hval & Herr & Hit & Hser).
      cbn [cs_items cs_errors cs_serializers] in *.
      conjs.
      * simpl. by rewrite Hval.
      * exact Herr.
      * exact Hit.
      * rewrite Hser, <- app_assoc. reflexivity.
    + exists (CallIsValid entry (Invalid detail) :: new).
      split; [rewrite Hcalls, <- app_assoc; reflexivity |].
      split; [constructor; [simpl; congruence | exact Hall] |].
      split; [exact Hdb |].
      intros st1 Hr. destruct (Hok st1 Hr) as (Hval & Herr & Hit & Hser).
      cbn [cs_items cs_errors cs_serializers] in *.
      conjs.
      * simpl. by rewrite Hval.
      * rewrite Herr, <- app_assoc. reflexivity.
      * exact Hit.
      * exact Hser.
Qed.

Lemma create_loop_cons s serializers items w :
  create_loop (s :: serializers) items w
  = match create_one s w with
    | (w1, Ok item) => create_loop serializers (items ++ [item]) w1
    | (w1, Raise e) => (w1, Raise e)
    end.
Proof. reflexivity. Qed.

(** The second loop creates the serializers in order, up to the first
    creation that raises. *)
Lemma create_loop_run serializers items w w1 r :
  create_loop serializers items w = (w1, r) ->
  exists done,
    w_calls w1 = w_calls w ++ map CallPerformCreate done
    /\ done `prefix_of` serializers
    /\ (forall items1, r = Ok items1 ->
          done = serializers
          /\ exists new_items,
               items1 = items ++ new_items
               /\ create_each serializers (w_db w) = Ok (w_db w1, new_items)).
Proof.
  revert items w. induction serializers as [| s serializers IH]; intros items w Hrun.
  - simpl in Hrun. injection Hrun as <- <-. exists []. simpl. rewrite app_nil_r.
    split; [reflexivity |]. split; [reflexivity |].
    intros items1 [= <-]. split; [reflexivity |].
    exists []. by rewrite app_nil_r.
  - rewrite create_loop_cons, create_one_run in Hrun.
    destruct (perform_create (w_db w) s) as [[d' inst] | e] eqn:Hc.
    + cbn [fst snd] in Hrun.
      destruct (IH _ _ Hrun) as (done & Hcalls & Hpre & Hok).
      cbn [w_db w_calls] in Hcalls, Hok.
      exists (s :: done).
      split; [rewrite Hcalls, <- app_assoc; reflexivity |].
      split; [by apply prefix_cons |].
      intros items1 Hr. destruct (Hok items1 Hr) as (-> & new_items & Hit & Hce).
      split; [reflexivity |].
      exists (to_representation d' inst :: new_items). split.
      * rewrite Hit, <- app_assoc. reflexivity.
      * simpl. rewrite Hc. simpl. rewrite Hce. reflexivity.
    + injection Hrun as <- <-. exists [s].
      split; [reflexivity |]. split; [by apply prefix_cons, prefix_nil |].
      intros items1; discriminate.
Qed.

(** [_create_many], its steps one after the other. *)
Lemma create_many_run qp data w :
  _create_many qp data w
  = match json_iter data with
    | Raise e => (w, Raise e)
    | Ok entries =>
        match validate_loop qp entries (CreateState [] [] []) w with
        | (w1, Raise e) => (w1, Raise e)
        | (w1, Ok st) =>
            match (if negb ENABLE_BULK_PARTIAL_CREATION && is_nil (cs_errors st)
                   then create_loop (cs_serializers st) (cs_items st) w1
                   else (w1, Ok (cs_items st))) with
            | (w2, Raise e) => (w2, Raise e)
            | (w2, Ok items) =>
                match get_serializer_check qp with
                | Raise e => (w2, Raise e)
                | Ok _ =>
                    (w2,
                     Ok (Response
                           (Some (JObj (if is_nil (cs_errors st) then sideload items
                                        else dict_set "errors" (JList (cs_errors st))
                                               (sideload items))))
                           (if is_nil (cs_errors st) then HTTP_201_CREATED
                            else HTTP_400_BAD_REQUEST)))
                end
            end
        end
    end.
Proof.
  unfold _create_many. unfold mbind at 1. unfold lift at 1.
  destruct (json_iter data) as [entries | e]; [| reflexivity].
  unfold mbind at 1.
  destruct (validate_loop qp entries (CreateState [] [] []) w) as [w1 [st | e]];
    [| reflexivity].
  unfold mbind at 1.
  destruct (negb ENABLE_BULK_PARTIAL_CREATION && is_nil (cs_errors st)).
  - destruct (create_loop (cs_serializers st) (cs_items st) w1) as [w2 [items | e]];
      [| reflexivity].
    unfold mbind, lift, ret. destruct (get_serializer_check qp); reflexivity.
  - unfold ret at 1. unfold mbind, lift, ret.
    destruct (get_serializer_check qp); reflexivity.
Qed.

Lemma validations_readings d (calls : list call) :
  Forall (validation_on d) calls -> created calls = [].
Proof.
  induction 1 as [| c calls Hc _ IH]; [reflexivity |].
  destruct c; simpl in *; try contradiction. exact IH.
Qed.

Lemma creations_readings (serializers : list serializer) :
  created (map CallPerformCreate serializers) = serializers
  /\ failed_entries (map CallPerformCreate serializers) = []
  /\ validated_entries (map CallPerformCreate serializers) = []
  /\ valid_serializers (map CallPerformCreate serializers) = [].
Proof.
  induction serializers as [| s serializers (H1 & H2 & H3 & H4)]; [done |].
  simpl. by rewrite H1, H2, H3, H4.
Qed.

Lemma is_nil_true {A} (l : list A) : is_nil l = true <-> l = [].
Proof. destruct l; simpl; split; congruence. Qed.

Lemma is_nil_false {A} (l : list A) : is_nil l = false <-> l <> [].
Proof. destruct l; simpl; split; congruence. Qed.

(** A failing entry that was validated leaves an error entry. *)
Lemma failed_entries_of_invalid d (calls : list call) entry detail :
  Forall (validation_on d) calls ->
  entry ∈ validated_entries calls ->
  validate d entry = Invalid detail ->
  failed_entries calls <> [].
Proof.
  induction 1 as [| c calls Hc _ IH]; intros Hin Hv.
  - by apply elem_of_nil in Hin.
  - destruct c as [entry' outcome | | | | | |]; simpl in *; try contradiction.
    apply elem_of_cons in Hin as [<- | Hin].
    + rewrite Hc, Hv. discriminate.
    + destruct outcome; [by apply IH | discriminate].
Qed.

Lemma validations_app (a b : list call) :
  validations (a ++ b) = validations a ++ validations b.
Proof. apply omap_app. Qed.

Lemma validations_creations (serializers : list serializer) :
  validations (map CallPerformCreate serializers) = [].
Proof. by induction serializers. Qed.

(** The error entries are those of the validations that failed. *)
Lemma failed_entries_failures (calls : list call) :
  failed_entries calls
  = map (fun f => JObj [("detail", JStr (snd f)); ("source", fst f)])
      (failures (validations calls)).
Proof.
  induction calls as [| c calls IH]; [reflexivity |].
  destruct c as [entry [s | detail] | | | | | |]; simpl; try exact IH.
  by rewrite <- IH.
Qed.

(** The first loop validates each item on the store it finds. *)
Lemma validate_loop_outcomes qp entries st w w1 st1 :
  validate_loop qp entries st w = (w1, Ok st1) ->
  exists new,
    w_calls w1 = w_calls w ++ new
    /\ validations new = outcomes ENABLE_BULK_PARTIAL_CREATION entries (w_db w).
Proof.
  revert st w. induction entries as [| entry entries IH]; intros st w Hrun.
  - simpl in Hrun. injection Hrun as <- _. exists []. by rewrite app_nil_r.
  - rewrite validate_loop_cons in Hrun.
    destruct (get_serializer_check qp) as [[] | e]; [| discriminate].
    cbn zeta in Hrun. cbn [outcomes].
    destruct (validate (w_db w) entry) as [s | detail] eqn:Hv.
    + destruct ENABLE_BULK_PARTIAL_CREATION.
      * rewrite create_one_run in Hrun. cbn [w_db w_calls] in Hrun.
        destruct (perform_create (w_db w) s) as [made | e]; [| discriminate].
        destruct (IH _ _ Hrun) as (new & Hcalls & Hnew).
        cbn [w_db w_calls] in Hcalls, Hnew.
        exists (CallIsValid entry (Valid s) :: CallPerformCreate s :: new).
        split; [rewrite Hcalls, <- !app_assoc; reflexivity |].
        simpl. by rewrite <- Hnew.
      * destruct (IH _ _ Hrun) as (new & Hcalls & Hnew).
        cbn [w_db w_calls] in Hcalls, Hnew.
        exists (CallIsValid entry (Valid s) :: new).
        split; [rewrite Hcalls, <- app_assoc; reflexivity |].
        simpl. by rewrite <- Hnew.
    + destruct (IH _ _ Hrun) as (new & Hcalls & Hnew).
      cbn [w_db w_calls] in Hcalls, Hnew.
      exists (CallIsValid entry (Invalid detail) :: new).
      split; [rewrite Hcalls, <- app_assoc; reflexivity |].
      simpl. by rewrite <- Hnew.
Qed.

End CreateMany.

Section CreateManyClaims.

Context {C : Collaborators}.

(** C2: when a create-many request is answered, the validations it made
    are those of the payload items, in order, each with the outcome that
    [validate] gives on the store the item finds; the status is 201
    exactly when none of them failed, and 400 otherwise, also when some
    items were created; the body is the sideloaded rendering of the
    created items, and with failures it has in addition, under [errors],
    one entry per failed item, in order: the dict of the error detail,
    under [detail], and of the item as it was sent, under [source]. *)
Theorem create_many_status (qp : QueryParams) (payload : json)
    (w w' : world) (resp : response) :
  _create_many qp payload w = (w', Ok resp) ->
  exists entries new items,
    json_iter payload = Ok entries
    /\ w_calls w' = w_calls w ++ new
    /\ validated_entries new = entries
    /\ validations new = outcomes ENABLE_BULK_PARTIAL_CREATION entries (w_db w)
    /\ failed_entries new
       = map (fun f => JObj [("detail", JStr (snd f)); ("source", fst f)])
           (failures (validations new))
    /\ create_each (created new) (w_db w) = Ok (w_db w', items)
    /\ (status resp = HTTP_201_CREATED <-> failed_entries new = [])
    /\ (failed_entries new = [] -> data resp = Some (JObj (sideload items)))
    /\ (failed_entries new <> [] ->
        status resp = HTTP_400_BAD_REQUEST
        /\ data resp
           = Some (JObj (dict_set "errors" (JList (failed_entries new))
                           (sideload items)))).
Proof.
  intros Hrun. rewrite create_many_run in Hrun.
  destruct (json_iter payload) as [entries | e]; [| discriminate].
  destruct (validate_loop qp entries (CreateState [] [] []) w)
    as [w1 [st | e]] eqn:Hloop; [| discriminate].
  destruct (validate_loop_outcomes _ _ _ _ _ _ Hloop) as (first & Hfirst & Hout).
  assert (Hanswer : forall items,
             resp = Response
                      (Some (JObj (if is_nil (cs_errors st) then sideload items
                                   else dict_set "errors" (JList (cs_errors st))
                                          (sideload items))))
                      (if is_nil (cs_errors st) then HTTP_201_CREATED
                       else HTTP_400_BAD_REQUEST) ->
             (status resp = HTTP_201_CREATED <-> cs_errors st = [])
             /\ (cs_errors st = [] -> data resp = Some (JObj (sideload items)))
             /\ (cs_errors st <> [] ->
                 status resp = HTTP_400_BAD_REQUEST
                 /\ data resp
                    = Some (JObj (dict_set "errors" (JList (cs_errors st))
                                    (sideload items))))).
  { intros items ->. destruct (cs_errors st) as [| err errs]; simpl.
    - split; [done |]. split; [done |]. intros H; by destruct H.
    - split; [split; discriminate |]. split; [discriminate | done]. }
  destruct ENABLE_BULK_PARTIAL_CREATION eqn:Hp; cbn [negb andb] in Hrun.
  - (* items created as they validate *)
    destruct (get_serializer_check qp); [| discriminate].
    injection Hrun as <- Hresp.
    destruct (validate_loop_partial _ _ _ _ _ _ Hp Hloop)
      as (new & Hcalls & _ & _ & Hok).
    destruct (Hok st eq_refl) as (Hval & Herr & _ & _ & items & Hit & Hce).
    simpl in Herr, Hit. rewrite Hit in Hresp.
    assert (first = new) as ->
      by (apply (app_inv_head (w_calls w)); by rewrite <- Hfirst).
    exists entries, new, items.
    split; [reflexivity |]. split; [exact Hcalls |]. split; [exact Hval |].
    split; [exact Hout |]. split; [apply failed_entries_failures |].
    split; [exact Hce |]. rewrite <- Herr. by apply Hanswer.
  - (* items created after all have validated *)
    destruct (validate_loop_strict _ _ _ _ _ _ Hp Hloop)
      as (new & Hcalls & Hall & Hdb & Hok).
    destruct (Hok st eq_refl) as (Hval & Herr & Hit & Hser).
    simpl in Herr, Hit, Hser.
    assert (first = new) as ->
      by (apply (app_inv_head (w_calls w)); by rewrite <- Hfirst).
    destruct (is_nil (cs_errors st)) eqn:Hnil.
    + destruct (create_loop (cs_serializers st) (cs_items st) w1)
        as [w2 [items | e]] eqn:Hcreate; [| discriminate].
      destruct (get_serializer_check qp); [| discriminate].
      injection Hrun as <- Hresp.
      destruct (create_loop_run _ _ _ _ _ Hcreate) as (done & Hcalls2 & _ & Hdone).
      destruct (Hdone items eq_refl) as (-> & new_items & Hitems & Hce).
      rewrite Hit in Hitems. simpl in Hitems. subst items.
      destruct (creations_readings (cs_serializers st)) as (Hc1 & Hc2 & Hc3 & _).
      exists entries, (new ++ map CallPerformCreate (cs_serializers st)), new_items.
      split; [reflexivity |].
      split; [rewrite Hcalls2, Hcalls, <- app_assoc; reflexivity |].
      split; [rewrite validated_entries_app, Hval, Hc3; apply app_nil_r |].
      split; [by rewrite validations_app, validations_creations, app_nil_r |].
      split; [apply failed_entries_failures |].
      split.
      { rewrite created_app, (validations_readings _ _ Hall), Hc1. simpl.
        rewrite <- Hdb. exact Hce. }
      rewrite failed_entries_app, Hc2, app_nil_r, <- Herr.
      apply Hanswer. symmetry. exact Hresp.
    + destruct (get_serializer_check qp); [| discriminate].
      injection Hrun as <- Hresp.
      exists entries, new, [].
      split; [reflexivity |]. split; [exact Hcalls |]. split; [exact Hval |].
      split; [exact Hout |]. split; [apply failed_entries_failures |].
      split.
      { rewrite (validations_readings _ _ Hall). simpl. by rewrite Hdb. }
      rewrite <- Herr. apply Hanswer.
      rewrite Hit in Hresp. symmetry. exact Hresp.
Qed.

(** C3: with partial creation disabled every validation of the request
    comes before every creation, and when an item of the payload fails
    validation [perform_create] is not called and the store is left as it
    was.  With partial creation enabled each item that validates is
    created right after its validation, before the next item is looked
    at, and a failing item does not stop the items after it: an answered
    request has validated every item and created every valid one. *)
Theorem create_many_order (qp : QueryParams) (payload : json)
    (entries : list json) (w w' : world) (r : result response) :
  json_iter payload = Ok entries ->
  _create_many qp payload w = (w', r) ->
  exists new,
    w_calls w' = w_calls w ++ new
    /\ (ENABLE_BULK_PARTIAL_CREATION = false ->
        (exists validations,
            new = validations ++ map CallPerformCreate (created new)
            /\ Forall (validation_on (w_db w)) validations)
        /\ ((exists entry detail,
                entry ∈ entries /\ validate (w_db w) entry = Invalid detail) ->
            created new = [] /\ w_db w' = w_db w))
    /\ (ENABLE_BULK_PARTIAL_CREATION = true ->
        immediate_creation new
        /\ (forall resp, r = Ok resp ->
              validated_entries new = entries
              /\ created new = valid_serializers new)).
Proof.
  intros Hiter Hrun. rewrite create_many_run, Hiter in Hrun.
  destruct (validate_loop qp entries (CreateState [] [] []) w)
    as [w1 r1] eqn:Hloop.
  destruct ENABLE_BULK_PARTIAL_CREATION eqn:Hp; cbn [negb andb] in Hrun.
  - (* items created as they validate *)
    destruct (validate_loop_partial _ _ _ _ _ _ Hp Hloop)
      as (new & Hcalls & Himm & _ & Hok).
    exists new.
    assert (Hw : w' = w1).
    { destruct r1; [destruct (get_serializer_check qp) |]; congruence. }
    subst w'. split; [exact Hcalls |]. split; [discriminate |].
    intros _. split; [exact Himm |].
    intros resp ->. destruct r1 as [st | e]; [| discriminate].
    destruct (Hok st eq_refl) as (Hval & _ & _ & Hcr & _). by split.
  - (* items created after all have validated *)
    destruct (validate_loop_strict _ _ _ _ _ _ Hp Hloop)
      as (new & Hcalls & Hall & Hdb & Hok).
    pose proof (validations_readings _ _ Hall) as Hnone.
    destruct r1 as [st | e].
    2:{ injection Hrun as <- <-. exists new.
        split; [exact Hcalls |]. split; [| discriminate].
        intros _. split.
        - exists new. rewrite Hnone. simpl. by rewrite app_nil_r.
        - by intros _. }
    destruct (Hok st eq_refl) as (Hval & Herr & Hit & Hser). simpl in Herr.
    destruct (is_nil (cs_errors st)) eqn:Hnil.
    + destruct (create_loop (cs_serializers st) (cs_items st) w1)
        as [w2 r2] eqn:Hcreate.
      destruct (create_loop_run _ _ _ _ _ Hcreate) as (done & Hcalls2 & _ & _).
      assert (Hw : w' = w2).
      { destruct r2; [destruct (get_serializer_check qp) |]; congruence. }
      subst w'. exists (new ++ map CallPerformCreate done).
      destruct (creations_readings done) as (Hc1 & _).
      split; [rewrite Hcalls2, Hcalls, <- app_assoc; reflexivity |].
      split; [| discriminate].
      intros _. rewrite created_app, Hnone, Hc1. simpl. split.
      * by exists new.
      * intros (entry & detail & Hin & Hinvalid). exfalso.
        apply is_nil_true in Hnil. rewrite Herr in Hnil.
        rewrite <- Hval in Hin.
        by apply (failed_entries_of_invalid _ _ _ _ Hall Hin Hinvalid).
    + assert (Hw : w' = w1).
      { destruct (get_serializer_check qp); congruence. }
      subst w'. exists new.
      split; [exact Hcalls |]. split; [| discriminate].
      intros _. rewrite Hnone. simpl. split.
      * exists new. by rewrite app_nil_r.
      * by intros _.
Qed.

End CreateManyClaims.

(** The scenario of the specification: two items, the second with a blank
    name, partial creation enabled. *)
Lemma create_many_status_witness :
  exists w' resp,
    @_create_many (sample_view true true true) [] (JList [fido; blank])
      (@World (sample_view true true true) [] [])
    = (w', Ok resp)
    /\ resp = Response
                (Some (JObj [("dogs", JList [fido]);
                             ("errors",
                              JList [JObj [("detail",
                                            JStr "name: This field may not be blank.");
                                           ("source", blank)]])]))
                400
    /\ exists entries new items,
         json_iter (JList [fido; blank]) = Ok entries
         /\ w_calls w' = [] ++ new
         /\ @validated_entries (sample_view true true true) new = entries
         /\ @validations (sample_view true true true) new
            = @outcomes (sample_view true true true) true entries []
         /\ @failed_entries (sample_view true true true) new
            = map (fun f => JObj [("detail", JStr (snd f)); ("source", fst f)])
                (@failures (sample_view true true true)
                   (@validations (sample_view true true true) new))
         /\ @create_each (sample_view true true true)
              (@created (sample_view true true true) new) []
            = Ok (w_db w', items)
         /\ (status resp = HTTP_201_CREATED
             <-> @failed_entries (sample_view true true true) new = [])
         /\ (@failed_entries (sample_view true true true) new = [] ->
             data resp = Some (JObj [("dogs", JList items)]))
         /\ (@failed_entries (sample_view true true true) new <> [] ->
             status resp = HTTP_400_BAD_REQUEST
             /\ data resp
                = Some (JObj (dict_set "errors"
                                (JList (@failed_entries (sample_view true true true) new))
                                [("dogs", JList items)]))).
Proof.
  eexists. eexists. split; [vm_compute; reflexivity |]. split; [reflexivity |].
  apply (@create_many_status (sample_view true true true) [] (JList [fido; blank])
           (@World (sample_view true true true) [] [])).
  vm_compute; reflexivity.
Defined.

(** The same payload with partial creation disabled: nothing is created;
    with it enabled, the valid item is. *)
Lemma create_many_order_witness :
  (exists w' r,
      @_create_many (sample_view false true true) [] (JList [fido; blank])
        (@World (sample_view false true true) [] [])
      = (w', r)
      /\ w_db w' = []
      /\ @created (sample_view false true true) (w_calls w') = [])
  /\ (exists w' r,
        @_create_many (sample_view true true true) [] (JList [blank; fido])
          (@World (sample_view true true true) [] [])
        = (w', r)
        /\ w_db w' = [[("name", JStr "Fido")]]
        /\ @immediate_creation (sample_view true true true) (w_calls w')).
Proof.
  split.
  - eexists. eexists. split; [vm_compute; reflexivity |].
    destruct (@create_many_order (sample_view false true true) []
                (JList [fido; blank]) [fido; blank]
                (@World (sample_view false true true) [] []) _ _
                eq_refl eq_refl) as (new & Hcalls & Hstrict & _).
    destruct (Hstrict eq_refl) as [_ Hnone].
    destruct Hnone as [Hcreated Hdb].
    + exists blank, "name: This field may not be blank.".
      split; [| reflexivity].
      apply elem_of_cons. right. apply elem_of_cons. by left.
    + split; [exact Hdb |].
      exact (eq_ind_r
               (fun calls => @created (sample_view false true true) calls = [])
               Hcreated Hcalls).
  - eexists. eexists. split; [vm_compute; reflexivity |].
    destruct (@create_many_order (sample_view true true true) []
                (JList [blank; fido]) [blank; fido]
                (@World (sample_view true true true) [] []) _ _
                eq_refl eq_refl) as (new & Hcalls & _ & Hpartial).
    destruct (Hpartial eq_refl) as [Himm _].
    split; [reflexivity |].
    exact (eq_ind_r (@immediate_creation (sample_view true true true))
             Himm Hcalls).
Defined.

(** ** The relation endpoint *)

Section ListRelatedClaims.

Context {C : Collaborators}.

(** The guards before the query for the root object: a filter on the
    request, or an unknown field, is a [ValidationError]. *)
Lemma related_field_filtered qp pk field_name filters :
  get_request_feature_object json_loads features qp FILTER false = Ok filters ->
  extracted_truthy filters = true ->
  related_field qp pk field_name
  = Raise (ValidationError "Filtering is not enabled on relation endpoints.").
Proof. intros Hf Ht. unfold related_field. rewrite Hf. simpl. by rewrite Ht. Qed.

Lemma related_field_params qp pk field_name qp' src :
  related_field qp pk field_name = Ok (qp', src) ->
  qp' = related_params pk field_name qp
  /\ related_fields !! field_name = Some src.
Proof.
  unfold related_field.
  destruct (get_request_feature_object _ _ _ _ _) as [filters | e]; [| discriminate].
  simpl. destruct (extracted_truthy filters); [discriminate |].
  destruct (get_serializer_check _); [| discriminate]. simpl.
  destruct (related_fields !! field_name); [| discriminate].
  intros [= <- <-]. by split.
Qed.

(** C9: once the relation endpoint has passed its guards and queries for
    the root object, a root that is absent from the filtered queryset is
    answered with status 404; a root that is there but whose relation
    raises [ObjectDoesNotExist] is answered with the empty body and status
    200, and no exception. *)
Theorem list_related_absent (qp : QueryParams) (pk field_name : string)
    (qp' : QueryParams) (src : string) (qs : queryset) (w : world) :
  related_field qp pk field_name = Ok (qp', src) ->
  filter_queryset qp' = Ok qs ->
  (qs_first (w_db w) qs = None ->
     list_related qp pk field_name w
     = (w, Ok (Response (Some (JStr "Not found")) 404)))
  /\ (forall obj msg,
        qs_first (w_db w) qs = Some obj ->
        getattr_related (w_db w) obj src = Raise (ObjectDoesNotExist msg) ->
        list_related qp pk field_name w
        = (w, Ok (Response (Some (JObj [])) 200))).
Proof.
  intros Hfield Hqs.
  unfold list_related, related_response, mbind, lift, get_db, ret.
  rewrite Hfield. simpl. rewrite Hqs. split.
  - intros ->. reflexivity.
  - intros obj msg -> ->. reflexivity.
Qed.

End ListRelatedClaims.

Lemma list_related_absent_witness :
  @list_related (sample_view true true true) [] "1" "owner"
    (@World (sample_view true true true) [] [])
  = (@World (sample_view true true true) [] [],
     Ok (Response (Some (JStr "Not found")) 404))
  /\ @list_related (sample_view true true true) [] "1" "owner"
       (@World (sample_view true true true) [stray] [])
     = (@World (sample_view true true true) [stray] [],
        Ok (Response (Some (JObj [])) 200)).
Proof.
  split.
  - apply (@list_related_absent (sample_view true true true) [] "1" "owner"
             [("filter{pk}", ["1"]); ("include[]", ["owner."])] "owner" tt
             (@World (sample_view true true true) [] []) eq_refl eq_refl).
    reflexivity.
  - apply (proj2 (@list_related_absent (sample_view true true true) [] "1" "owner"
             [("filter{pk}", ["1"]); ("include[]", ["owner."])] "owner" tt
             (@World (sample_view true true true) [stray] []) eq_refl eq_refl)
             stray "Dog has no owner.").
    + reflexivity.
    + reflexivity.
Defined.

(** ** The empty list as a payload *)

(** C10 as stated fails for update: with bulk update and patch-all
    enabled, a request [PATCH ...?patch-all=true] whose payload is the
    empty list goes to the patch-all path, not to the singular update; it
    ends in a [ValidationError] and the parent class is never called. *)
Lemma update_empty_list_patch_all :
  @update (sample_view true true true) [("patch-all", ["true"])] (JList []) []
    (@World (sample_view true true true) [dog1] [])
  = (@World (sample_view true true true) [dog1] [],
     Raise (ValidationError "Patch-all data must be in object form"))
  /\ @singular_update (sample_view true true true) (JList []) []
       (@World (sample_view true true true) [dog1] [])
     = (@World (sample_view true true true) [dog1]
          [@CallSuper (sample_view true true true) "update"],
        Ok (Response (Some (JList [])) 200)).
Proof. split; reflexivity. Qed.

Section EmptyPayload.

Context {C : Collaborators}.

(** C10, amended: the extractor returns the empty list of a request as it
    is.  [create] and [destroy] take it for an absent payload and go the
    singular way, which for a [DELETE] without an identifier in the URL is
    the status 405.  [update] does the same when bulk update is disabled,
    when the patch-all parameter is read as no mode, or when it is read as
    a mode and patch-all is disabled.  With bulk update enabled, a
    patch-all parameter that is no mode raises its [ParseError], patch-all
    enabled or not; a mode asked for with patch-all enabled takes the
    patch-all path, where the list is refused with a [ValidationError]
    (or the queryset raises) before any write.  In no case is a bulk
    creation, update or deletion performed. *)
Theorem empty_list_is_singular (qp : QueryParams) (kwargs : list string)
    (w : world) :
  _get_bulk_payload (JList []) = Ok (Some (JList []))
  /\ create qp (JList []) w = call_super "create" (super_create (JList [])) w
  /\ (lookup_url_kwarg ∉ kwargs ->
      destroy (JList []) kwargs w
      = (w, Ok (Response None HTTP_405_METHOD_NOT_ALLOWED)))
  /\ (lookup_url_kwarg ∈ kwargs ->
      destroy (JList []) kwargs w
      = call_super "destroy" (super_destroy (JList []) kwargs) w)
  /\ (ENABLE_BULK_UPDATE = false
      \/ get_request_patch_all is_truthy features qp = Ok None
      \/ (ENABLE_PATCH_ALL = false
          /\ exists mode, get_request_patch_all is_truthy features qp = Ok mode) ->
      update qp (JList []) kwargs w = singular_update (JList []) kwargs w)
  /\ (forall e,
        ENABLE_BULK_UPDATE = true ->
        get_request_patch_all is_truthy features qp = Raise e ->
        update qp (JList []) kwargs w = (w, Raise e))
  /\ (forall mode,
        ENABLE_BULK_UPDATE = true -> ENABLE_PATCH_ALL = true ->
        get_request_patch_all is_truthy features qp = Ok (Some mode) ->
        update qp (JList []) kwargs w
        = (w, Raise (match filter_queryset qp with
                     | Ok _ => ValidationError "Patch-all data must be in object form"
                     | Raise e => e
                     end))).
Proof.
  split; [reflexivity |]. split; [reflexivity |].
  split; [| split; [| split; [| split]]].
  - intros Hk. unfold destroy, mbind, lift, ret. simpl.
    by rewrite bool_decide_eq_false_2.
  - intros Hk. unfold destroy, mbind, lift. simpl.
    by rewrite bool_decide_eq_true_2.
  - intros Hcase. unfold update.
    destruct ENABLE_BULK_UPDATE; [| reflexivity].
    destruct Hcase as [Hb | [Hnone | [Hp [mode Hmode]]]]; [discriminate | |].
    + rewrite Hnone. unfold mbind, lift. simpl.
      destruct ENABLE_PATCH_ALL; reflexivity.
    + rewrite Hmode, Hp. unfold mbind, lift. simpl. reflexivity.
  - intros e Hb He. unfold update. rewrite Hb, He. reflexivity.
  - intros mode Hb Hp Hmode. unfold update. rewrite Hb, Hmode, Hp.
    unfold mbind at 1. unfold lift at 1.
    unfold _patch_all, mbind, lift. simpl.
    destruct (filter_queryset qp); reflexivity.
Qed.

End EmptyPayload.

Lemma empty_list_is_singular_witness :
  @destroy (sample_view true true true) (JList []) []
    (@World (sample_view true true true) [dog1] [])
  = (@World (sample_view true true true) [dog1] [],
     Ok (Response None 405))
  /\ @update (sample_view true true true) [] (JList []) []
       (@World (sample_view true true true) [dog1] [])
     = @singular_update (sample_view true true true) (JList []) []
         (@World (sample_view true true true) [dog1] [])
  /\ @update (sample_view true true false) [("patch-all", ["0"])] (JList []) []
       (@World (sample_view true true false) [dog1] [])
     = (@World (sample_view true true false) [dog1] [],
        Raise (ParseError (quoted "0" +:+ " is not valid for patch-all")))
  /\ @update (sample_view true true true) [("patch-all", ["query"])] (JList []) []
       (@World (sample_view true true true) [dog1] [])
     = (@World (sample_view true true true) [dog1] [],
        Raise (ValidationError "Patch-all data must be in object form")).
Proof.
  destruct (@empty_list_is_singular (sample_view true true true) [] []
              (@World (sample_view true true true) [dog1] []))
    as (_ & _ & H405 & _ & Hupdate & _ & _).
  destruct (@empty_list_is_singular (sample_view true true false)
              [("patch-all", ["0"])] []
              (@World (sample_view true true false) [dog1] []))
    as (_ & _ & _ & _ & _ & Hparse & _).
  destruct (@empty_list_is_singular (sample_view true true true)
              [("patch-all", ["query"])] []
              (@World (sample_view true true true) [dog1] []))
    as (_ & _ & _ & _ & _ & _ & Hmode).
  split; [| split; [| split]].
  - apply H405. apply not_elem_of_nil.
  - apply Hupdate. right. left. reflexivity.
  - apply Hparse; reflexivity.
  - apply (Hmode ModeQuery); reflexivity.
Defined.

(** ** Create-many always answers when its collaborators do *)

Section CreateManyAnswers.

Context {C : Collaborators}.

Hypothesis creation_succeeds : forall d s, exists made, perform_create d s = Ok made.

Lemma validate_loop_answers qp entries st w :
  get_serializer_check qp = Ok tt ->
  exists w1 st1, validate_loop qp entries st w = (w1, Ok st1).
Proof.
  intros Hser. revert st w. induction entries as [| entry entries IH]; intros st w.
  - by exists w, st.
  - rewrite validate_loop_cons, Hser. cbn zeta.
    destruct (validate (w_db w) entry) as [s | detail]; [| apply IH].
    destruct ENABLE_BULK_PARTIAL_CREATION; [| apply IH].
    rewrite create_one_run.
    destruct (creation_succeeds (w_db w) s) as [made Hmade].
    cbn [w_db]. rewrite Hmade. apply IH.
Qed.

Lemma create_loop_answers serializers items w :
  exists w1 items1, create_loop serializers items w = (w1, Ok items1).
Proof.
  revert items w. induction serializers as [| s serializers IH]; intros items w.
  - by exists w, items.
  - rewrite create_loop_cons, create_one_run.
    destruct (creation_succeeds (w_db w) s) as [made Hmade].
    rewrite Hmade. apply IH.
Qed.

(** An iterable payload on a request whose serializer can be built is
    answered with a response. *)
Lemma create_many_answers qp payload entries w :
  json_iter payload = Ok entries ->
  get_serializer_check qp = Ok tt ->
  exists w' resp, _create_many qp payload w = (w', Ok resp).
Proof.
  intros Hiter Hser. rewrite create_many_run, Hiter.
  destruct (validate_loop_answers qp entries (CreateState [] [] []) w Hser)
    as (w1 & st & ->).
  destruct (negb ENABLE_BULK_PARTIAL_CREATION && is_nil (cs_errors st)).
  - destruct (create_loop_answers (cs_serializers st) (cs_items st) w1)
      as (w2 & items & ->).
    rewrite Hser. by eexists _, _.
  - rewrite Hser. by eexists _, _.
Qed.

End CreateManyAnswers.

(** * Further properties of the parser *)

(** ** Strings *)

Lemma split_no_sep (c : ascii) (s : string) :
  Py.contains c s = false -> Py.split c s = [s].
Proof.
  induction s as [| a s IH]; simpl; [reflexivity |].
  intros H. apply orb_false_iff in H as [Ha Hs].
  rewrite Ha, (IH Hs). reflexivity.
Qed.

Lemma split_app_sep (c : ascii) (a b : string) :
  Py.contains c a = false ->
  Py.split c (a +:+ String c b) = a :: Py.split c b.
Proof.
  induction a as [| x a IH]; simpl.
  - intros _. by rewrite Ascii.eqb_refl.
  - intros H. apply orb_false_iff in H as [Hx Ha].
    rewrite Hx, (IH Ha). reflexivity.
Qed.

(** Splitting what was joined gives the pieces back, when no piece holds
    the separator. *)
Theorem split_join (c : ascii) (items : list string) :
  items <> [] ->
  Forall (fun item => Py.contains c item = false) items ->
  Py.split c (join (String c EmptyString) items) = items.
Proof.
  intros Hne Hall. induction Hall as [| item items Hitem Hall IH]; [done |].
  destruct items as [| item2 items].
  - simpl. by apply split_no_sep.
  - change (join (String c EmptyString) (item :: item2 :: items))
      with (item +:+ String c (join (String c EmptyString) (item2 :: items))).
    rewrite split_app_sep by exact Hitem.
    by rewrite IH.
Qed.

Lemma split_join_witness :
  Py.split "." (join "." ["groups"; "permissions"; "name"])
  = ["groups"; "permissions"; "name"].
Proof.
  apply (split_join "." ["groups"; "permissions"; "name"]).
  - discriminate.
  - repeat constructor.
Defined.

Lemma length_app_string (a b : string) :
  String.length (a +:+ b) = String.length a + String.length b.
Proof. induction a as [| x a IH]; simpl; [reflexivity | by rewrite IH]. Qed.

Lemma drop_app_string (a b : string) :
  Py.drop (String.length a) (a +:+ b) = b.
Proof. induction a as [| x a IH]; simpl; [by destruct b | exact IH]. Qed.

Lemma take_app_string (a b : string) :
  Py.take (String.length a) (a +:+ b) = a.
Proof. induction a as [| x a IH]; simpl; [by destruct b | by rewrite IH]. Qed.

Lemma endswith_app (a p : string) : Py.endswith p (a +:+ p) = true.
Proof.
  unfold Py.endswith. rewrite length_app_string.
  replace (String.length a + String.length p - String.length p)
    with (String.length a) by lia.
  rewrite drop_app_string, String.eqb_refl.
  apply andb_true_iff. split; [apply Nat.leb_le; lia | reflexivity].
Qed.

Lemma contains_app (c : ascii) (a b : string) :
  Py.contains c (a +:+ b) = Py.contains c a || Py.contains c b.
Proof.
  induction a as [| x a IH]; simpl; [reflexivity |].
  by rewrite IH, orb_assoc.
Qed.

Lemma startswith_take (n : nat) (s : string) : Py.startswith (Py.take n s) s = true.
Proof.
  revert n. induction s as [| a s IH]; intros [| n]; simpl; try reflexivity.
  by rewrite Ascii.eqb_refl.
Qed.

Lemma lower_ascii_idem (c : ascii) :
  Py.lower_ascii (Py.lower_ascii c) = Py.lower_ascii c.
Proof.
  destruct c as [[] [] [] [] [] [] [] []]; reflexivity.
Qed.

Lemma lower_idem (s : string) : Py.lower (Py.lower s) = Py.lower s.
Proof.
  induction s as [| c s IH]; simpl; [reflexivity |].
  by rewrite lower_ascii_idem, IH.
Qed.

Lemma nonempty_lower (s : string) : Py.nonempty (Py.lower s) = Py.nonempty s.
Proof. by destruct s. Qed.

(** ** The patch-all parameter is read without regard to case *)

(** X5: The value of the patch-all parameter counts in lower case: a value
    and its lower-case form are parsed to the same mode or the same
    error. *)
Theorem parse_patch_all_lower (is_truthy : string -> bool) (v : string) :
  parse_patch_all is_truthy (Some (Py.lower v))
  = parse_patch_all is_truthy (Some v).
Proof.
  unfold parse_patch_all. by rewrite nonempty_lower, lower_idem.
Qed.

(** ** The values of an [.in] key *)

Lemma expand_in_app (a b : list string) :
  expand_in (a ++ b) = expand_in a ++ expand_in b.
Proof.
  induction a as [| v a IH]; simpl; [reflexivity |].
  by rewrite IH, app_assoc.
Qed.

Lemma expand_in_cons (v : string) (value : list string) :
  expand_in (v :: value)
  = (if Py.startswith "[" v && Py.endswith "]" v && Py.contains "," v
     then Py.split "," (Py.slice 1 1 v)
     else [v]) ++ expand_in value.
Proof. reflexivity. Qed.

(** A value that is not a bracketed comma list is kept as it is. *)
Lemma expand_in_plain (v : string) :
  Py.startswith "[" v && Py.endswith "]" v && Py.contains "," v = false ->
  expand_in [v] = [v].
Proof. intros H. rewrite expand_in_cons, H. reflexivity. Qed.

(** X6: A bracketed list of two or more items that hold no comma is replaced
    by its items; the values before and after it keep their places. *)
Theorem expand_in_bracketed (before after items : list string) :
  1 < List.length items ->
  Forall (fun item => Py.contains "," item = false) items ->
  expand_in (before ++ ("[" +:+ join "," items +:+ "]") :: after)
  = expand_in before ++ items ++ expand_in after.
Proof.
  intros Hlen Hall. rewrite expand_in_app, expand_in_cons. f_equal. f_equal.
  assert (Hstart : Py.startswith "[" ("[" +:+ join "," items +:+ "]") = true)
    by reflexivity.
  assert (Hend : Py.endswith "]" ("[" +:+ join "," items +:+ "]") = true).
  { change (Py.endswith "]" (("[" +:+ join "," items) +:+ "]") = true).
    apply endswith_app. }
  assert (Hcomma : Py.contains "," ("[" +:+ join "," items +:+ "]") = true).
  { destruct items as [| item [| item2 items]]; simpl in Hlen; try lia.
    change (join "," (item :: item2 :: items))
      with (item +:+ String "," (join "," (item2 :: items))).
    rewrite !contains_app. simpl. by rewrite !orb_true_r. }
  rewrite Hstart, Hend, Hcomma. simpl andb. cbv iota.
  assert (Hslice : Py.slice 1 1 ("[" +:+ join "," items +:+ "]") = join "," items).
  { unfold Py.slice.
    change (Py.drop 1 ("[" +:+ join "," items +:+ "]"))
      with (join "," items +:+ "]").
    change (String.length ("[" +:+ join "," items +:+ "]"))
      with (S (String.length (join "," items +:+ "]"))).
    rewrite length_app_string. simpl String.length.
    replace (S (String.length (join "," items) + 1) - 1 - 1)
      with (String.length (join "," items)) by lia.
    apply take_app_string. }
  rewrite Hslice. apply split_join; [| exact Hall].
  destruct items; [simpl in Hlen; lia | discriminate].
Qed.

Lemma expand_in_bracketed_witness :
  expand_in ["7"; "[1,2,3]"; "[9]"] = ["7"; "1"; "2"; "3"; "[9]"].
Proof.
  apply (expand_in_bracketed ["7"] ["[9]"] ["1"; "2"; "3"]).
  - simpl. lia.
  - repeat constructor.
Defined.

(** ** QueryParams.add *)

Lemma qp_find_appendlist key value qp :
  qp_find key (qp_appendlist key value qp)
  = Some (default [] (qp_find key qp) ++ [value]).
Proof.
  induction qp as [| [k vs] qp IH]; simpl.
  - by rewrite String.eqb_refl.
  - destruct (String.eqb k key) eqn:Hk; simpl; rewrite Hk; [reflexivity | exact IH].
Qed.

Lemma qp_find_appendlist_ne key key' value qp :
  key <> key' ->
  qp_find key' (qp_appendlist key value qp) = qp_find key' qp.
Proof.
  intros Hne. induction qp as [| [k vs] qp IH]; simpl.
  - apply String.eqb_neq in Hne. by rewrite Hne.
  - destruct (String.eqb k key) eqn:Hk; simpl.
    + apply String.eqb_eq in Hk as ->.
      apply String.eqb_neq in Hne. by rewrite Hne.
    + destruct (String.eqb k key'); [reflexivity | exact IH].
Qed.

(** X8: Adding a list of values to a key appends them, flat and in order, to
    the values the key has; the other keys keep theirs. *)
Theorem qp_add_getlist (key : string) (values : list string) (qp : QueryParams) :
  qp_getlist key (qp_add key values qp) = qp_getlist key qp ++ values
  /\ forall key', key <> key' ->
       qp_find key' (qp_add key values qp) = qp_find key' qp.
Proof.
  unfold qp_add, qp_getlist. revert qp.
  induction values as [| v values IH]; intros qp; simpl.
  - by rewrite app_nil_r.
  - destruct (IH (qp_appendlist key v qp)) as [Hget Hother]. split.
    + rewrite Hget, qp_find_appendlist. simpl. by rewrite <- app_assoc.
    + intros key' Hne. rewrite (Hother key' Hne).
      by apply qp_find_appendlist_ne.
Qed.

(** ** Object-type features: the other parameters *)

Section ExtractOthers.

Variable json_loads : string -> result json.

Lemma extract_loop_filter name raw (qp : list (string * list string)) acc :
  extract_loop json_loads name raw
    (filter (fun kv => Py.startswith (Py.take (String.length name - 1) name) (fst kv))
       qp) acc
  = extract_loop json_loads name raw qp acc.
Proof.
  revert acc. induction qp as [| [key value] qp IH]; intros acc; [reflexivity |].
  rewrite filter_cons. cbn [fst]. case_decide as Hstart.
  - apply Is_true_true in Hstart. cbn [extract_loop].
    destruct (String.eqb key name).
    + destruct raw; [destruct value |]; try reflexivity; apply IH.
    + rewrite Hstart. cbn [negb].
      destruct (Py.endswith "}" key); [simpl; apply IH |].
      destruct (Py.endswith "}[]" key); [simpl; apply IH | reflexivity].
  - apply Is_true_false in Hstart. rewrite IH. cbn [extract_loop].
    destruct (String.eqb key name) eqn:Hk.
    + apply String.eqb_eq in Hk as ->.
      by rewrite startswith_take in Hstart.
    + by rewrite Hstart.
Qed.

(** X7: The parameters that do not start with the prefix of the feature have
    no part in what is extracted, nor in whether it raises. *)
Theorem extract_ignores_other_keys (qp : QueryParams) (name : string) (raw : bool) :
  _extract_object_params json_loads qp name raw
  = _extract_object_params json_loads
      (filter (fun kv => Py.startswith (Py.take (String.length name - 1) name) (fst kv))
         qp)
      name raw.
Proof. unfold _extract_object_params. symmetry. apply extract_loop_filter. Qed.

End ExtractOthers.

(** ** Request fields: top-level names, repeated values *)

Lemma add_field_plain include f m :
  plain f ->
  add_field include f (RNode m) = Ok (RNode (<[f := RLeaf include]> m)).
Proof.
  intros [Hne Hdot]. unfold add_field.
  rewrite (split_no_sep "." f Hdot), add_segments_last, Hne. reflexivity.
Qed.

Lemma add_fields_plain include fs m :
  Forall plain fs ->
  add_fields include fs (RNode m)
  = Ok (RNode (fold_left (fun m f => <[f := RLeaf include]> m) fs m)).
Proof.
  intros Hall. revert m. induction Hall as [| f fs Hf _ IH]; intros m.
  - reflexivity.
  - cbn [add_fields]. rewrite (add_field_plain include f m Hf). simpl bind.
    apply IH.
Qed.

Lemma fold_insert_lookup include (fs : list string) (m : gmap string rfield) f :
  fold_left (fun m f => <[f := RLeaf include]> m) fs m !! f
  = if decide (f ∈ fs) then Some (RLeaf include) else m !! f.
Proof.
  revert m. induction fs as [| x fs IH]; intros m; cbn [fold_left].
  - case_decide as Hin; [by apply elem_of_nil in Hin | reflexivity].
  - rewrite IH. destruct (decide (f ∈ fs)) as [Hin | Hnin].
    + rewrite decide_True; [reflexivity | by apply elem_of_cons; right].
    + destruct (decide (f = x)) as [-> | Hne].
      * rewrite lookup_insert_eq.
        rewrite decide_True; [reflexivity | by apply elem_of_cons; left].
      * rewrite lookup_insert_ne by done.
        rewrite decide_False; [reflexivity |].
        intros [? | ?]%elem_of_cons; contradiction.
Qed.

(** X3: For top-level names, a name listed in exclude[] is excluded, also when
    include[] lists it too; a name only in include[] is included; no other
    name is in the map. *)
Theorem get_request_fields_plain (features : list string) (qp : QueryParams) :
  INCLUDE ∈ features -> EXCLUDE ∈ features ->
  Forall plain (qp_getlist INCLUDE qp) ->
  Forall plain (qp_getlist EXCLUDE qp) ->
  exists m,
    get_request_fields features qp = Ok (RNode m)
    /\ forall f,
         m !! f = if decide (f ∈ qp_getlist EXCLUDE qp) then Some (RLeaf false)
                  else if decide (f ∈ qp_getlist INCLUDE qp) then Some (RLeaf true)
                  else None.
Proof.
  intros Hinc Hexc Hi He. unfold get_request_fields, get_request_feature_array, is_feature.
  rewrite !bool_decide_eq_true_2 by assumption.
  cbn [add_feature]. rewrite (add_fields_plain true _ ∅ Hi). simpl bind.
  rewrite (add_fields_plain false _ _ He).
  eexists. split; [reflexivity |].
  intros f. rewrite !fold_insert_lookup, lookup_empty. reflexivity.
Qed.

Lemma get_request_fields_plain_witness :
  exists m,
    get_request_fields sample_features
      [("include[]", ["name"; "fur"]); ("exclude[]", ["id"; "fur"])]
    = Ok (RNode m)
    /\ m !! "fur" = Some (RLeaf false)
    /\ m !! "name" = Some (RLeaf true)
    /\ m !! "owner" = None.
Proof.
  destruct (get_request_fields_plain sample_features
              [("include[]", ["name"; "fur"]); ("exclude[]", ["id"; "fur"])])
    as (m & Hrun & Hm).
  - vm_compute. set_solver.
  - vm_compute. set_solver.
  - repeat constructor.
  - repeat constructor.
  - exists m. split; [exact Hrun |].
    split; [| split]; rewrite Hm; reflexivity.
Defined.

Lemma add_segments_idem field include segs cur cur' :
  add_segments field include segs cur = Ok cur' ->
  add_segments field include segs cur' = Ok cur'.
Proof.
  revert cur cur'. induction segs as [| s rest IH]; intros cur cur' Hrun.
  - simpl in *. congruence.
  - destruct rest as [| s2 rest].
    + rewrite add_segments_last in Hrun |- *.
      destruct (Py.nonempty s); [| congruence].
      destruct cur as [b | m]; [discriminate |].
      injection Hrun as <-. by rewrite insert_insert_eq.
    + rewrite add_segments_cons in Hrun |- *.
      destruct (Py.nonempty s); [| discriminate].
      destruct cur as [b | m]; [discriminate |].
      destruct (add_segments field include (s2 :: rest)
                  (default (RNode ∅) (m !! s))) as [child' | e] eqn:Hchild;
        [| discriminate].
      simpl in Hrun. injection Hrun as <-.
      rewrite lookup_insert_eq. simpl default.
      rewrite (IH _ _ Hchild). simpl bind. by rewrite insert_insert_eq.
Qed.

(** X2: A value given twice counts once: processing an accepted value again
    leaves the request-field map as it is. *)
Theorem add_field_idempotent (include : bool) (field : string) (cur cur' : rfield) :
  add_field include field cur = Ok cur' ->
  add_field include field cur' = Ok cur'.
Proof. apply add_segments_idem. Qed.

Lemma add_field_idempotent_witness :
  add_field true "groups.permissions."
    (RNode {[ "groups" := RNode {[ "permissions" := RNode ∅ ]} ]})
  = Ok (RNode {[ "groups" := RNode {[ "permissions" := RNode ∅ ]} ]}).
Proof.
  apply (add_field_idempotent true "groups.permissions." (RNode ∅)).
  vm_compute. reflexivity.
Defined.

(** * Further properties of the relation endpoint *)

Lemma qp_find_del key (qp : list (string * list string)) :
  qp_find key (qp_del key qp) = None.
Proof.
  unfold qp_del, QueryParams. induction qp as [| [k vs] qp IH]; [reflexivity |].
  rewrite filter_cons. cbn [fst]. case_decide as Hk.
  - apply Is_true_true, negb_true_iff in Hk. cbn [qp_find]. by rewrite Hk.
  - exact IH.
Qed.

Lemma qp_find_del_ne key key' (qp : list (string * list string)) :
  key <> key' -> qp_find key' (qp_del key qp) = qp_find key' qp.
Proof.
  intros Hne. unfold qp_del, QueryParams.
  induction qp as [| [k vs] qp IH]; [reflexivity |].
  rewrite filter_cons. cbn [fst]. case_decide as Hk.
  - cbn [qp_find]. by rewrite IH.
  - apply Is_true_false, negb_false_iff, String.eqb_eq in Hk. subst k.
    cbn [qp_find]. apply String.eqb_neq in Hne. by rewrite Hne.
Qed.

Section RelatedParams.

Context {C : Collaborators}.

Lemma prefix_inex_getlist feature prefix (qp : list (string * list string)) :
  feature ∈ features ->
  qp_getlist feature (_prefix_inex_params feature prefix qp)
  = map (fun val => prefix +:+ val) (qp_getlist feature qp)
  /\ forall key', feature <> key' ->
       qp_find key' (_prefix_inex_params feature prefix qp) = qp_find key' qp.
Proof.
  intros Hin. unfold _prefix_inex_params, get_request_feature_array, is_feature.
  rewrite bool_decide_eq_true_2 by exact Hin.
  destruct (qp_getlist feature qp) as [| v values] eqn:Hvalues.
  - rewrite Hvalues. by split.
  - destruct (qp_add_getlist feature (map (fun val => prefix +:+ val) (v :: values))
                (qp_del feature qp)) as [Hget Hother].
    split.
    + rewrite Hget. unfold qp_getlist at 1. by rewrite qp_find_del.
    + intros key' Hne. rewrite (Hother key' Hne). by apply qp_find_del_ne.
Qed.

(** X9: The parameters [list_related] works with: every include[] and
    exclude[] value of the request is put under the relation, the relation
    itself is included last, and the root is selected by its key. *)
Theorem related_params_scoped (pk field_name : string) (qp : QueryParams) :
  INCLUDE ∈ features -> EXCLUDE ∈ features ->
  qp_getlist INCLUDE (related_params pk field_name qp)
  = map (fun val => (field_name +:+ ".") +:+ val) (qp_getlist INCLUDE qp)
    ++ [field_name +:+ "."]
  /\ qp_getlist EXCLUDE (related_params pk field_name qp)
     = map (fun val => (field_name +:+ ".") +:+ val) (qp_getlist EXCLUDE qp)
  /\ qp_getlist "filter{pk}" (related_params pk field_name qp)
     = qp_getlist "filter{pk}" qp ++ [pk].
Proof.
  intros Hinc Hexc. unfold related_params.
  set (prefix := field_name +:+ ".").
  destruct (prefix_inex_getlist INCLUDE prefix qp Hinc) as [Hi1 Ho1].
  destruct (prefix_inex_getlist EXCLUDE prefix
              (_prefix_inex_params INCLUDE prefix qp) Hexc) as [He2 Ho2].
  set (qp2 := _prefix_inex_params EXCLUDE prefix
                (_prefix_inex_params INCLUDE prefix qp)) in *.
  destruct (qp_add_getlist INCLUDE [prefix] (qp_appendlist "filter{pk}" pk qp2))
    as [Hget Hother].
  split; [| split].
  - rewrite Hget. f_equal. unfold qp_getlist.
    rewrite qp_find_appendlist_ne by discriminate.
    rewrite Ho2 by discriminate. exact Hi1.
  - unfold qp_getlist at 1. rewrite Hother by discriminate.
    rewrite qp_find_appendlist_ne by discriminate.
    fold (qp_getlist EXCLUDE qp2). rewrite He2. f_equal.
    unfold qp_getlist. by rewrite Ho1 by discriminate.
  - unfold qp_getlist at 1. rewrite Hother by discriminate.
    rewrite qp_find_appendlist. simpl. f_equal.
    unfold qp_getlist. rewrite Ho2 by discriminate.
    by rewrite Ho1 by discriminate.
Qed.

(** The relation endpoint only reads: whatever it answers or raises, the
    store is as it was and no write was called. *)
Theorem list_related_reads_only (qp : QueryParams) (pk field_name : string)
    (w : world) :
  fst (list_related qp pk field_name w) = w.
Proof.
  unfold list_related, related_response, mbind, lift, get_db, ret, raise.
  destruct (related_field qp pk field_name) as [[qp' src] | e]; [| reflexivity].
  simpl. destruct (filter_queryset qp') as [qs | e]; [| reflexivity].
  destruct (qs_first (w_db w) qs) as [obj |]; [| reflexivity].
  destruct (getattr_related (w_db w) obj src) as [instance | []]; reflexivity.
Qed.

(** X10: A request that carries a filter is refused by the relation endpoint:
    when the filter feature is enabled and the parameters, none malformed,
    hold a key of the feature, [list_related] raises a [ValidationError]
    and nothing is queried. *)
Theorem list_related_filtered (qp : QueryParams) (pk field_name : string)
    (w : world) (kv : string * list string) (sub : string) :
  FILTER ∈ features ->
  Forall (fun kv => malformed_key FILTER (fst kv) = false) qp ->
  kv ∈ qp ->
  subkey FILTER (fst kv) = Some sub ->
  list_related qp pk field_name w
  = (w, Raise (ValidationError "Filtering is not enabled on relation endpoints.")).
Proof.
  intros Hin Hm Hkv Hsub.
  unfold list_related, mbind, lift.
  rewrite (related_field_filtered qp pk field_name
             (ExMap (fold_left (extract_step FILTER) qp []))); [reflexivity | |].
  - unfold get_request_feature_object, is_feature.
    rewrite bool_decide_eq_true_2 by exact Hin.
    unfold _extract_object_params.
    rewrite <- (app_nil_r qp) at 1.
    rewrite extract_loop_prefix; [reflexivity | exact Hm |].
    apply Forall_forall. intros x _. apply andb_false_r.
  - simpl. apply negb_true_iff, is_nil_false. intros Hnil.
    assert (Hsome : is_Some (dict_get sub (fold_left (extract_step FILTER) qp []))).
    { apply extract_step_mem. right. by exists kv. }
    rewrite Hnil in Hsome. by destruct Hsome.
Qed.

End RelatedParams.

Lemma related_params_scoped_witness :
  qp_getlist INCLUDE
    (@related_params (sample_view true true true) "1" "owner"
       [("include[]", ["name"; "pets."])])
  = ["owner.name"; "owner.pets."; "owner."].
Proof.
  apply (@related_params_scoped (sample_view true true true) "1" "owner"
           [("include[]", ["name"; "pets."])]).
  - vm_compute. set_solver.
  - vm_compute. set_solver.
Defined.

Lemma list_related_filtered_witness :
  @list_related (sample_view true true true) [("filter{name}", ["Rex"])] "1" "owner"
    (@World (sample_view true true true) [stray] [])
  = (@World (sample_view true true true) [stray] [],
     Raise (ValidationError "Filtering is not enabled on relation endpoints.")).
Proof.
  apply (@list_related_filtered (sample_view true true true)
           [("filter{name}", ["Rex"])] "1" "owner" _ ("filter{name}", ["Rex"]) "name").
  - vm_compute. set_solver.
  - repeat constructor.
  - apply elem_of_cons. by left.
  - reflexivity.
Defined.

(** * Further properties of the bulk operations *)

Section BulkDispatch.

Context {C : Collaborators}.

Lemma dict_single {V} (k : string) (members : list (string * V)) :
  dict_mem k members = true -> List.length members = 1 ->
  exists v, members = [(k, v)] /\ dict_get k members = Some v.
Proof.
  destruct members as [| [k' v] [| ? ?]]; try discriminate.
  unfold dict_mem. simpl. destruct (String.eqb k' k) eqn:Hk; [| discriminate].
  apply String.eqb_eq in Hk as ->. intros _ _. by exists v.
Qed.

(** X11: A request carries a bulk payload exactly when its data is a list, the
    payload being the list, or a dict whose only key is the plural name,
    the payload being what the key holds. *)
Theorem get_bulk_payload_some (data payload : json) :
  _get_bulk_payload data = Ok (Some payload)
  <-> (exists items, data = JList items /\ payload = data)
      \/ data = JObj [(plural_name, payload)].
Proof.
  split.
  - destruct data as [| b | n | s | items | members]; simpl; try discriminate.
    + destruct (_ && _); discriminate.
    + intros [= <-]. left. by exists items.
    + destruct (dict_mem plural_name members && (List.length members =? 1)%nat) eqn:H;
        [| discriminate].
      apply andb_true_iff in H as [Hmem Hlen]. apply Nat.eqb_eq in Hlen.
      destruct (dict_single _ _ Hmem Hlen) as (v & -> & Hget).
      rewrite Hget. intros [= <-]. by right.
  - intros [(items & -> & ->) | ->]; [reflexivity |].
    simpl. unfold dict_mem. simpl. by rewrite String.eqb_refl.
Qed.

(** X12: A payload that holds something goes the bulk way in every verb: the
    dict form and the list form of it are handled alike, and for [destroy]
    an identifier in the URL changes nothing. *)
Theorem bulk_payload_dispatch (qp : QueryParams) (data payload : json)
    (kwargs : list string) (w : world) :
  _get_bulk_payload data = Ok (Some payload) ->
  json_truthy payload = true ->
  create qp data w = _create_many qp payload w
  /\ destroy data kwargs w = _destroy_many payload w
  /\ (ENABLE_BULK_UPDATE = true ->
      get_request_patch_all is_truthy features qp = Ok None ->
      update qp data kwargs w
      = _bulk_update qp payload (bool_decide ("partial" ∈ kwargs)) w).
Proof.
  intros Hp Ht. split; [| split].
  - unfold create, mbind at 1, lift at 1. by rewrite Hp, Ht.
  - unfold destroy, mbind at 1, lift at 1. by rewrite Hp, Ht.
  - intros Hb Hnone. unfold update. rewrite Hb, Hnone.
    unfold mbind at 1, lift at 1.
    assert (Hgo : (run bulk_payload <- lift (_get_bulk_payload data);
                   match bulk_payload with
                   | Some payload0 =>
                       if json_truthy payload0
                       then _bulk_update qp payload0 (bool_decide ("partial" ∈ kwargs))
                       else singular_update data kwargs
                   | None => singular_update data kwargs
                   end) w
                  = _bulk_update qp payload (bool_decide ("partial" ∈ kwargs)) w).
    { unfold mbind at 1, lift at 1. by rewrite Hp, Ht. }
    destruct ENABLE_PATCH_ALL; exact Hgo.
Qed.

(** X13: The patch-all parameter is read only by a viewset with bulk update:
    without it every update is a singular one, whatever the parameter and
    the payload; with it a value of the parameter that is no mode is a
    [ParseError], also when patch-all itself is disabled. *)
Theorem update_patch_all_parameter (qp : QueryParams) (data : json)
    (kwargs : list string) (w : world) :
  (ENABLE_BULK_UPDATE = false ->
   update qp data kwargs w = singular_update data kwargs w)
  /\ (forall e,
        ENABLE_BULK_UPDATE = true ->
        get_request_patch_all is_truthy features qp = Raise e ->
        update qp data kwargs w = (w, Raise e)).
Proof.
  split.
  - intros Hb. unfold update. by rewrite Hb.
  - intros e Hb He. unfold update. rewrite Hb, He. reflexivity.
Qed.

End BulkDispatch.

Lemma bulk_payload_dispatch_witness :
  @create (sample_view true true true) [] (JObj [("dogs", JList [fido])])
    (@World (sample_view true true true) [] [])
  = @create (sample_view true true true) [] (JList [fido])
      (@World (sample_view true true true) [] []).
Proof.
  rewrite (proj1 (@bulk_payload_dispatch (sample_view true true true) []
                    (JObj [("dogs", JList [fido])]) (JList [fido]) []
                    (@World (sample_view true true true) [] [])
                    eq_refl eq_refl)).
  rewrite (proj1 (@bulk_payload_dispatch (sample_view true true true) []
                    (JList [fido]) (JList [fido]) []
                    (@World (sample_view true true true) [] [])
                    eq_refl eq_refl)).
  reflexivity.
Defined.

Lemma update_patch_all_parameter_witness :
  @update (sample_view true true false) [("patch-all", ["0"])] (JObj gold) ["pk"]
    (@World (sample_view true true false) [dog1] [])
  = (@World (sample_view true true false) [dog1] [],
     Raise (ParseError (quoted "0" +:+ " is not valid for patch-all"))).
Proof.
  apply (proj2 (@update_patch_all_parameter (sample_view true true false)
                  [("patch-all", ["0"])] (JObj gold) ["pk"]
                  (@World (sample_view true true false) [dog1] []))).
  - reflexivity.
  - reflexivity.
Defined.

Section DestroyMany.

Context {C : Collaborators}.

Lemma destroy_loop_cons instance instances w :
  destroy_loop (instance :: instances) w
  = match check_object_permissions instance with
    | Raise e => (w, Raise e)
    | Ok _ =>
        match perform_destroy (w_db w) instance with
        | Ok d' =>
            destroy_loop instances
              (World d' (w_calls w ++ [CallPerformDestroy instance]))
        | Raise e =>
            (World (w_db w) (w_calls w ++ [CallPerformDestroy instance]), Raise e)
        end
    end.
Proof.
  destruct w as [d calls]. cbn [destroy_loop].
  unfold mbind, lift, log, get_db, put_db. simpl.
  destruct (check_object_permissions instance); [| reflexivity].
  destruct (perform_destroy d instance); reflexivity.
Qed.

Lemma destroy_loop_prefix before instances w d1 :
  Forall (fun r => check_object_permissions r = Ok tt) before ->
  destroy_each before (w_db w) = Ok d1 ->
  destroy_loop (before ++ instances) w
  = destroy_loop instances (World d1 (w_calls w ++ destroy_calls before)).
Proof.
  intros Hall. revert w. induction Hall as [| r before Hr _ IH]; intros w Hd.
  - simpl in *. injection Hd as <-. destruct w. simpl. by rewrite app_nil_r.
  - simpl app. rewrite destroy_loop_cons, Hr. simpl in Hd.
    destruct (perform_destroy (w_db w) r) as [d' | e]; [| discriminate].
    simpl in Hd.
    rewrite (IH (World d' (w_calls w ++ [CallPerformDestroy r])) Hd).
    simpl. by rewrite <- app_assoc.
Qed.

(** X14: Destroy-many deletes the instances one after the other, each after
    its permission check, and answers 204 when all are deleted.  It is not
    one transaction: when the check of an instance fails, the request
    raises and the instances before that one stay deleted. *)
Theorem destroy_many_stops_at_refusal (payload : json) (w : world) :
  (forall instances d',
      destroy_instances (w_db w) payload = Ok instances ->
      Forall (fun r => check_object_permissions r = Ok tt) instances ->
      destroy_each instances (w_db w) = Ok d' ->
      _destroy_many payload w
      = (World d' (w_calls w ++ destroy_calls instances),
         Ok (Response None HTTP_204_NO_CONTENT)))
  /\ (forall before r after d1 e,
        destroy_instances (w_db w) payload = Ok (before ++ r :: after) ->
        Forall (fun r => check_object_permissions r = Ok tt) before ->
        destroy_each before (w_db w) = Ok d1 ->
        check_object_permissions r = Raise e ->
        _destroy_many payload w
        = (World d1 (w_calls w ++ destroy_calls before), Raise e)).
Proof.
  split.
  - intros instances d' Hi Hall Hd.
    unfold _destroy_many. unfold mbind at 1. unfold get_db at 1.
    unfold mbind at 1. unfold lift at 1. rewrite Hi.
    unfold mbind at 1.
    rewrite <- (app_nil_r instances) at 1.
    rewrite (destroy_loop_prefix _ _ _ _ Hall Hd). reflexivity.
  - intros before r after d1 e Hi Hall Hd Hr.
    unfold _destroy_many. unfold mbind at 1. unfold get_db at 1.
    unfold mbind at 1. unfold lift at 1. rewrite Hi.
    unfold mbind at 1.
    rewrite (destroy_loop_prefix _ _ _ _ Hall Hd), destroy_loop_cons, Hr.
    reflexivity.
Qed.

End DestroyMany.

Lemma destroy_many_stops_at_refusal_witness :
  @_destroy_many deleting_view (JList [JNum 1; JNum 2; JNum 3])
    (@World deleting_view [dog1; dog2; dog3] [])
  = (@World deleting_view [dog2; dog3] [@CallPerformDestroy deleting_view dog1],
     Raise (OtherError "PermissionDenied")).
Proof.
  apply (proj2 (@destroy_many_stops_at_refusal deleting_view
                  (JList [JNum 1; JNum 2; JNum 3])
                  (@World deleting_view [dog1; dog2; dog3] []))
           [dog1] dog2 [dog3] [dog2; dog3] (OtherError "PermissionDenied")).
  - reflexivity.
  - repeat constructor.
  - reflexivity.
  - reflexivity.
Defined.

Section PatchAllMore.

Context {C : Collaborators}.

Lemma save_loop_ok values records updated w w1 n :
  save_loop values records updated w = (w1, Ok n) ->
  n = updated + List.length records
  /\ save_each values records (w_db w) = Ok (w_db w1)
  /\ w_calls w1 = w_calls w ++ save_calls values records.
Proof.
  revert updated w. induction records as [| r records IH]; intros updated w Hrun.
  - simpl in Hrun. injection Hrun as <- <-. simpl.
    split; [lia |]. split; [reflexivity | by rewrite app_nil_r].
  - rewrite save_loop_cons in Hrun. simpl.
    destruct (save (w_db w) (set_all values r)) as [d' | e]; [| discriminate].
    destruct (IH _ _ Hrun) as (-> & Heach & Hcalls). simpl in *.
    split; [lia |]. split; [exact Heach |].
    rewrite Hcalls, <- app_assoc. reflexivity.
Qed.

(** X15: A patch-all request in loop mode succeeds exactly when the queryset
    is obtained, the payload validates and every record of the queryset is
    saved; the answer counts every record of the queryset, with status
    200, and the saves are the only writes. *)
Theorem patch_all_loop_response (qp : QueryParams) (payload : json)
    (w w' : world) (resp : response) :
  _patch_all qp payload false w = (w', Ok resp)
  <-> exists qs values,
        filter_queryset qp = Ok qs
        /\ _validate_patch_all qp payload = Ok values
        /\ save_each values (qs_iter (w_db w) qs) (w_db w) = Ok (w_db w')
        /\ w_calls w' = w_calls w ++ save_calls values (qs_iter (w_db w) qs)
        /\ resp = Response
                    (Some (updated_body (List.length (qs_iter (w_db w) qs))))
                    HTTP_200_OK.
Proof.
  unfold _patch_all. unfold mbind at 1. unfold lift at 1.
  destruct (filter_queryset qp) as [qs | e].
  2:{ split; [discriminate | intros (? & ? & ? & _); discriminate]. }
  unfold mbind at 1. unfold lift at 1.
  destruct (_validate_patch_all qp payload) as [values | e].
  2:{ split; [discriminate | intros (? & ? & _ & ? & _); discriminate]. }
  unfold mbind at 1. unfold _patch_all_loop, except_integrity, atomic.
  unfold mbind at 1. unfold get_db at 1.
  destruct (save_loop values (qs_iter (w_db w) qs) 0 w) as [w1 [n | e]] eqn:Hloop.
  - destruct (save_loop_ok _ _ _ _ _ _ Hloop) as (-> & Heach & Hcalls).
    unfold ret. split.
    + intros [= <- <-]. exists qs, values. by repeat split.
    + intros (qs' & values' & [= <-] & [= <-] & Heach' & Hcalls' & ->).
      destruct w1 as [d1 calls1], w' as [d' calls']. simpl in *.
      rewrite Heach in Heach'. injection Heach' as <-.
      rewrite Hcalls, Hcalls'. reflexivity.
  - assert (Hfail : forall d', save_each values (qs_iter (w_db w) qs) (w_db w)
                               <> Ok d').
    { intros d' Heach.
      pose proof (save_loop_prefix values _ [] 0 w d' Heach) as Hp.
      rewrite app_nil_r in Hp. rewrite Hp in Hloop. discriminate. }
    split.
    + destruct e; discriminate.
    + intros (qs' & values' & [= <-] & [= <-] & Heach' & _).
      by destruct (Hfail _ Heach').
Qed.

Lemma atomic_raise {A} (body : M A) (w w' : world) (e : exn) :
  atomic body w = (w', Raise e) -> w_db w' = w_db w.
Proof.
  unfold atomic. destruct (body w) as [w1 [a | e1]]; [discriminate |].
  by intros [= <- _].
Qed.

(** X16: A patch-all request that raises, in either mode and for whatever
    reason, leaves the store as it was. *)
Theorem patch_all_failure_keeps_store (qp : QueryParams) (payload : json)
    (query : bool) (w w' : world) (e : exn) :
  _patch_all qp payload query w = (w', Raise e) ->
  w_db w' = w_db w.
Proof.
  unfold _patch_all. unfold mbind at 1. unfold lift at 1.
  destruct (filter_queryset qp) as [qs | e1]; [| by intros [= <- _]].
  unfold mbind at 1. unfold lift at 1.
  destruct (_validate_patch_all qp payload) as [values | e1]; [| by intros [= <- _]].
  unfold mbind at 1. destruct query.
  - unfold _patch_all_query, mbind, log, get_db, put_db, ret, raise. simpl.
    destruct (qs_update (w_db w) qs values) as [[d1 n] | e1]; [discriminate |].
    by intros [= <- _].
  - destruct (_patch_all_loop qs values w) as [w1 [n | e1]] eqn:Hloop;
      [discriminate |].
    intros [= <- _].
    unfold _patch_all_loop, except_integrity in Hloop.
    destruct (atomic (run d <- get_db; save_loop values (qs_iter d qs) 0) w)
      as [w2 [n | e2]] eqn:Hatomic; [discriminate |].
    apply atomic_raise in Hatomic.
    destruct e2; injection Hloop as <- _; exact Hatomic.
Qed.

End PatchAllMore.

Lemma patch_all_loop_response_witness :
  @_patch_all (sample_view true true true) [] (JObj gold) false
    (@World (sample_view true true true) [dog1; dog3] [])
  = (@World (sample_view true true true)
       [dict_set "fur" (JStr "gold") dog1; dict_set "fur" (JStr "gold") dog3]
       (@save_calls (sample_view true true true) gold [dog1; dog3]),
     Ok (Response (Some (JObj [("meta", JObj [("updated", JNum 2)])])) 200)).
Proof.
  apply (@patch_all_loop_response (sample_view true true true) [] (JObj gold)).
  exists tt, gold. repeat split.
Defined.

Lemma patch_all_failure_keeps_store_witness :
  w_db (fst (@_patch_all (sample_view true true true) [] (JObj gold) false
               (@World (sample_view true true true) [dog1; dog2; dog3] [])))
  = [dog1; dog2; dog3].
Proof.
  apply (@patch_all_failure_keeps_store (sample_view true true true) []
           (JObj gold) false
           (@World (sample_view true true true) [dog1; dog2; dog3] []) _
           (ValidationError
              ("Failed to update records:" +:+ nl
               +:+ "CHECK constraint failed: locked" +:+ nl
               +:+ "Data: " +:+ "fur"))).
  vm_compute. reflexivity.
Defined.

(** * Features that are not enabled *)

(** X4: A feature the viewset does not list is never parsed: whatever the
    parameters hold, [get_request_feature] raises nothing and returns
    [None], or the empty dict for an object-type name, whereas an enabled
    array-type feature without parameter gives the empty list.  Without
    include[] and exclude[] the request-field map is empty. *)
Theorem disabled_features_are_silent (json_loads : string -> result json)
    (features : list string) (qp : QueryParams) :
  (forall name raw,
      name ∉ features ->
      get_request_feature json_loads features qp name raw
      = Ok (if Py.substring_of "[]" name then FeatureNone
            else if Py.substring_of "{}" name then FeatureObject (ExMap [])
            else FeatureNone))
  /\ (forall name raw,
        name ∈ features -> Py.substring_of "[]" name = true ->
        qp_find name qp = None ->
        get_request_feature json_loads features qp name raw = Ok (FeatureList []))
  /\ (INCLUDE ∉ features -> EXCLUDE ∉ features ->
      get_request_fields features qp = Ok (RNode ∅)).
Proof.
  split; [| split].
  - intros name raw Hout.
    unfold get_request_feature, get_request_feature_array,
      get_request_feature_object, get_request_feature_single, is_feature.
    rewrite !bool_decide_eq_false_2 by exact Hout.
    destruct (Py.substring_of "[]" name); [reflexivity |].
    destruct (Py.substring_of "{}" name); reflexivity.
  - intros name raw Hin Harr Hnone.
    unfold get_request_feature, get_request_feature_array, is_feature, qp_getlist.
    rewrite Harr, bool_decide_eq_true_2 by exact Hin. by rewrite Hnone.
  - intros Hi He. unfold get_request_fields, get_request_feature_array, is_feature.
    by rewrite !bool_decide_eq_false_2 by assumption.
Qed.

Lemma disabled_features_are_silent_witness :
  get_request_feature sample_json_loads [DEBUG] [("filter{name", ["x"])] FILTER false
  = Ok (FeatureObject (ExMap []))
  /\ get_request_feature sample_json_loads sample_features [] INCLUDE false
     = Ok (FeatureList [])
  /\ get_request_fields [DEBUG] [("include[]", ["a..b"])] = Ok (RNode ∅).
Proof.
  destruct (disabled_features_are_silent sample_json_loads [DEBUG]
              [("filter{name", ["x"])]) as (Hoff & _ & _).
  destruct (disabled_features_are_silent sample_json_loads sample_features [])
    as (_ & Hempty & _).
  destruct (disabled_features_are_silent sample_json_loads [DEBUG]
              [("include[]", ["a..b"])]) as (_ & _ & Hfields).
  split; [| split].
  - apply (Hoff FILTER false).
    intros H%list_elem_of_singleton. discriminate H.
  - apply (Hempty INCLUDE false); [| reflexivity | reflexivity].
    apply elem_of_cons. right. apply elem_of_cons. by left.
  - apply Hfields; intros H%list_elem_of_singleton; discriminate H.
Defined.

(** * Model meta helpers *)

Section MetaProperties.

Context {F : Type}.
Variable isinstance : F -> Meta.cls -> bool.
Variable inner : F -> F.

(** X18: A name is a field of a model when the model has it as a field, as a
    reverse relationship or as a virtual field; every name passes for a
    field of an absent model. *)
Theorem is_model_field_iff (m : option (Meta.model F)) (name : string) :
  Meta.is_model_field m name = true
  <-> m = None
      \/ exists m',
           m = Some m'
           /\ (is_Some (Meta.get_field m' name)
               \/ is_Some (Meta.relationships m' !! name)
               \/ exists virtual,
                    Meta.virtual_fields m' = Some virtual
                    /\ is_Some (virtual !! name)).
Proof.
  unfold Meta.is_model_field, Meta.get_model_field.
  destruct m as [m' |]; [| split; [by left | done]].
  split.
  - intros H. right. exists m'. split; [reflexivity |].
    destruct (Meta.get_field m' name) as [f |]; [left; by eexists |].
    destruct (Meta.relationships m' !! name) as [f |]; [right; left; by eexists |].
    destruct (Meta.virtual_fields m') as [virtual |]; [| discriminate].
    destruct (virtual !! name) as [f |] eqn:Hv; [| discriminate].
    right. right. exists virtual. split; [reflexivity |]. rewrite Hv. by eexists.
  - intros [Hnone | (m2 & [= <-] & Hcase)]; [discriminate |].
    destruct (Meta.get_field m' name) as [f |]; [reflexivity |].
    destruct (Meta.relationships m' !! name) as [f |]; [reflexivity |].
    destruct Hcase as [[? ?] | [[? ?] | (virtual & -> & [f Hf])]]; try discriminate.
    by rewrite Hf.
Qed.

(** X19: The type of a field that is no [RelatedObject] is that of the first
    class of the map it is an instance of: a one-to-one field is ["o2o"]
    and a reverse one-to-one is ["o2or"] whatever other class they are
    instances of, and ["fk"] is the type only of a foreign key that is an
    instance of no class listed before. *)
Theorem field_type_order (m : option (Meta.model F)) (name : string) (f : F) :
  Meta.get_model_field m name = Meta.Found f ->
  isinstance f Meta.RelatedObject = false ->
  (isinstance f Meta.OneToOneField = true ->
   Meta.get_model_field_and_type isinstance inner m name
   = Meta.Typed (Some f) "o2o")
  /\ (isinstance f Meta.OneToOneField = false ->
      isinstance f Meta.OneToOneRel = true ->
      Meta.get_model_field_and_type isinstance inner m name
      = Meta.Typed (Some f) "o2or")
  /\ (Meta.get_model_field_and_type isinstance inner m name
      = Meta.Typed (Some f) "fk"
      <-> isinstance f Meta.ForeignKey = true
          /\ isinstance f Meta.OneToOneField = false
          /\ isinstance f Meta.OneToOneRel = false
          /\ isinstance f Meta.ManyToManyField = false
          /\ isinstance f Meta.ManyToOneRel = false
          /\ isinstance f Meta.ManyToManyRel = false).
Proof.
  intros Hfound Hrel. unfold Meta.get_model_field_and_type.
  rewrite Hfound, Hrel. unfold Meta.type_map, Meta.first_type.
  split; [| split].
  - by intros ->.
  - by intros -> ->.
  - destruct (isinstance f Meta.OneToOneField),
      (isinstance f Meta.OneToOneRel),
      (isinstance f Meta.ManyToManyField),
      (isinstance f Meta.ManyToOneRel),
      (isinstance f Meta.ManyToManyRel),
      (isinstance f Meta.ForeignKey);
      split; try discriminate; try (intros (? & ? & ? & ? & ? & ?); discriminate);
      try (intros _; by repeat split); try reflexivity.
Qed.

(** X20: [get_model_field_and_type] raises the error of the lookup
    exactly for the names [is_model_field] refuses. *)
Theorem field_error_iff (m : option (Meta.model F)) (name : string) :
  (exists bad, Meta.get_model_field_and_type isinstance inner m name
               = Meta.FieldError bad)
  <-> Meta.is_model_field m name = false.
Proof.
  unfold Meta.get_model_field_and_type, Meta.is_model_field.
  destruct (Meta.get_model_field m name) as [f | | bad].
  - split; [| discriminate]. intros [bad H].
    destruct (isinstance f Meta.RelatedObject); [| discriminate].
    destruct (isinstance (inner f) Meta.OneToOneField); [discriminate |].
    destruct (isinstance (inner f) Meta.ManyToManyField); [discriminate |].
    destruct (isinstance (inner f) Meta.ForeignKey); discriminate.
  - split; [intros [bad H] |]; discriminate.
  - split; [reflexivity | intros _; by exists bad].
Qed.

End MetaProperties.

Lemma field_type_order_witness :
  Meta.get_model_field_and_type sample_isinstance id (Some sample_model) "profile"
  = Meta.Typed (Some Meta.OneToOneField) "o2o"
  /\ Meta.get_model_field_and_type sample_isinstance id (Some sample_model) "location"
     = Meta.Typed (Some Meta.ForeignKey) "fk".
Proof.
  split.
  - apply (field_type_order sample_isinstance id (Some sample_model) "profile"
             Meta.OneToOneField eq_refl eq_refl).
    reflexivity.
  - apply (field_type_order sample_isinstance id (Some sample_model) "location"
             Meta.ForeignKey eq_refl eq_refl).
    repeat split.
Defined.

Lemma add_field_segments_witness :
  add_field true "loc.cat_set..name" (RNode {[ "loc" := RNode ∅ ]})
  = Raise (ParseError (quoted "loc.cat_set..name" +:+ " is not a valid field."))
  /\ exists cur',
       add_field false "location.name" (RNode {[ "location" := RNode ∅ ]}) = Ok cur'
       /\ rf_lookup ["location"; "name"] cur' = Some (RLeaf false).
Proof.
  assert (Hc1 : rf_clear (Py.split "." "loc.cat_set..name")
                  (RNode {[ "loc" := RNode ∅ ]}) = true)
    by (vm_compute; reflexivity).
  assert (Hc2 : rf_clear (Py.split "." "location.name")
                  (RNode {[ "location" := RNode ∅ ]}) = true)
    by (vm_compute; reflexivity).
  split.
  - apply (add_field_segments true "loc.cat_set..name" _ Hc1).
    exists 2. split; [simpl; lia | reflexivity].
  - destruct (proj2 (add_field_segments false "location.name" _ Hc2))
      as (cur' & Hrun & _ & Hleaf).
    + intros [| [| [| i]]] Hi; simpl in Hi; try lia; discriminate.
    + exists cur'. split; [exact Hrun |].
      apply (Hleaf "name"); [reflexivity | discriminate].
Defined.

Lemma patch_all_loop_other_witness :
  @_patch_all_loop deleting_view tt [("fur", JNum 3)]
    (@World deleting_view [dog1; dog3] [])
  = (@World deleting_view [dog1; dog3]
       (@save_calls deleting_view [("fur", JNum 3)] [dog1]),
     Raise (OtherError "DataError: fur")).
Proof.
  apply (@patch_all_loop_other deleting_view tt [("fur", JNum 3)]
           (@World deleting_view [dog1; dog3] []) [] dog1 [dog3] [dog1; dog3]
           (OtherError "DataError: fur")).
  - reflexivity.
  - reflexivity.
  - reflexivity.
  - discriminate.
Defined.
